(** * micro-spl-gov: the TypeScript SDK's compression helpers and the
      election ledger they talk to.

    The functions of [sdk/compression.ts] (leaf and nullifier derivation,
    [SimpleMerkleTree], [getMerkleTreeSize]) are embedded as Rocq functions
    over byte lists. JavaScript's 32-bit bitwise operators are written out
    with their wrap-around, and js-sha3's [keccak_256] is the Keccak-256
    sponge itself, so that every function runs on concrete buffers.

    The on-chain program (create, register, castVote, castBatch, close) is
    not among the sources, only its tests and its SDK callers are; module
    [Ledger] models it from the specification. *)

From Stdlib Require Import ZArith NArith List Lia Bool Ascii String.
From Stdlib Require Import Init.Byte.
From stdpp Require Import base decidable countable list gmap sets.
Import ListNotations.

(* ===================================================================== *)
(** ** Buffers *)
(* ===================================================================== *)

(** A Node.js [Buffer] is a sequence of bytes. *)
Definition Buffer : Type := list byte.

#[global] Instance byte_eq_dec : EqDecision byte := Byte.byte_eq_dec.

Definition byte_of_N (n : N) : byte :=
  match Byte.of_N (n mod 256) with Some b => b | None => x00 end.

#[global] Instance byte_countable : Countable byte :=
  inj_countable Byte.to_N Byte.of_N Byte.of_to_N.

(** [Buffer.alloc(n)]: [n] zero bytes. *)
Definition Buffer_alloc (n : nat) : Buffer := repeat x00 n.

(** [Buffer.concat(list)]. *)
Definition Buffer_concat (parts : list Buffer) : Buffer := List.concat parts.

(** [a.equals(b)]: same length and same bytes. *)
Definition Buffer_equals (a b : Buffer) : bool := bool_decide (a = b).

(** Little-endian bytes of a natural number, [n] bytes wide. *)
Fixpoint le_bytes (n : nat) (v : N) : list byte :=
  match n with
  | O => []
  | S n' => byte_of_N v :: le_bytes n' (v / 256)
  end.

(** The number a little-endian byte string stands for. *)
Fixpoint le_value (bs : list byte) : N :=
  match bs with
  | [] => 0
  | b :: r => (Byte.to_N b + 256 * le_value r)%N
  end.

(** Big-endian bytes, [n] bytes wide. *)
Definition be_bytes (n : nat) (v : N) : list byte := rev (le_bytes n v).

(* ===================================================================== *)
(** ** JavaScript numbers under the bitwise operators *)
(* ===================================================================== *)

Module JS.

(** [ToInt32]: the integer modulo 2^32, read as a signed 32-bit value. *)
Definition ToInt32 (x : Z) : Z := ((x + 2^31) mod 2^32 - 2^31)%Z.

(** [a << b]: the left operand as int32, the shift count masked to five
    bits, the result wrapped to int32 again. *)
Definition shl (a b : Z) : Z :=
  ToInt32 (Z.shiftl (ToInt32 a) (Z.land (b mod 2^32) 31)).

(** [a & b] on the int32 values of both operands. *)
Definition and (a b : Z) : Z := Z.land (ToInt32 a) (ToInt32 b).

End JS.

(* ===================================================================== *)
(** ** Keccak-256 (js-sha3's [keccak_256]) *)
(* ===================================================================== *)

Module Keccak.
Local Open Scope N_scope.

Definition mask64 : N := 2^64 - 1.

Definition rol64 (v n : N) : N :=
  if n =? 0 then v
  else N.lor (N.land (N.shiftl v n) mask64) (N.shiftr v (64 - n)).

(** The state is 25 lanes of 64 bits, lane (x, y) at index x + 5 y. *)
Definition lane (A : list N) (i : nat) : N := nth i A 0.

Definition RC : list N :=
  [ 0x0000000000000001; 0x0000000000008082; 0x800000000000808A;
    0x8000000080008000; 0x000000000000808B; 0x0000000080000001;
    0x8000000080008081; 0x8000000000008009; 0x000000000000008A;
    0x0000000000000088; 0x0000000080008009; 0x000000008000000A;
    0x000000008000808B; 0x800000000000008B; 0x8000000000008089;
    0x8000000000008003; 0x8000000000008002; 0x8000000000000080;
    0x000000000000800A; 0x800000008000000A; 0x8000000080008081;
    0x8000000000008080; 0x0000000080000001; 0x8000000080008008 ].

(** Rotation offsets, indexed x + 5 y. *)
Definition ROT : list N :=
  [  0;  1; 62; 28; 27;
    36; 44;  6; 55; 20;
     3; 10; 43; 25; 39;
    41; 45; 15; 21;  8;
    18;  2; 61; 56; 14 ].

Definition idx25 : list nat := seq 0 25.

Definition theta (A : list N) : list N :=
  let C := map (fun x =>
    N.lxor (lane A x) (N.lxor (lane A (x + 5)) (N.lxor (lane A (x + 10))
      (N.lxor (lane A (x + 15)) (lane A (x + 20)))))) (seq 0 5) in
  let D := map (fun x =>
    N.lxor (lane C ((x + 4) mod 5)) (rol64 (lane C ((x + 1) mod 5)) 1))
    (seq 0 5) in
  map (fun i => N.lxor (lane A i) (lane D (i mod 5))) idx25.

(** rho and pi together: B[y, 2x+3y] = rol (A[x, y], ROT[x, y]). *)
Definition rho_pi (A : list N) : list N :=
  map (fun i =>
    let X := (i mod 5)%nat in
    let Y := (i / 5)%nat in
    let x := ((X + 3 * Y) mod 5)%nat in
    let src := (x + 5 * X)%nat in
    rol64 (lane A src) (lane ROT src)) idx25.

Definition chi (B : list N) : list N :=
  map (fun i =>
    let x := (i mod 5)%nat in
    let y := (i / 5)%nat in
    N.lxor (lane B i)
      (N.ldiff (lane B ((x + 2) mod 5 + 5 * y)) (lane B ((x + 1) mod 5 + 5 * y))))
    idx25.

Definition iota (rc : N) (A : list N) : list N :=
  match A with
  | [] => []
  | a :: r => N.lxor a rc :: r
  end.

Definition round (A : list N) (rc : N) : list N :=
  iota rc (chi (rho_pi (theta A))).

Definition keccak_f (A : list N) : list N := fold_left round RC A.

(** Rate of Keccak-256 in bytes. *)
Definition rate : nat := 136.

(** Multi-rate padding with Keccak's domain byte 0x01. *)
Definition pad (data : list byte) : list byte :=
  let q := (rate - (length data mod rate))%nat in
  if (q =? 1)%nat then data ++ [x81]
  else data ++ [x01] ++ repeat x00 (q - 2) ++ [x80].

Fixpoint lanes_of_bytes (n : nat) (bs : list byte) : list N :=
  match n with
  | O => []
  | S n' => le_value (firstn 8 bs) :: lanes_of_bytes n' (skipn 8 bs)
  end.

Definition xor_block (A : list N) (blk : list byte) : list N :=
  let L := lanes_of_bytes 17 blk in
  map (fun i => N.lxor (lane A i) (lane L i)) idx25.

Fixpoint absorb (blocks : nat) (A : list N) (bs : list byte) : list N :=
  match blocks with
  | O => A
  | S n => absorb n (keccak_f (xor_block A (firstn rate bs))) (skipn rate bs)
  end.

Definition squeeze (A : list N) : list byte :=
  flat_map (fun i => le_bytes 8 (lane A i)) (seq 0 4).

(** The 32-byte Keccak-256 digest of a byte string. *)
Definition digest (data : list byte) : list byte :=
  let p := pad data in
  squeeze (absorb (length p / rate) (repeat 0 25) p).

End Keccak.

(** Lower-case hexadecimal, as js-sha3 prints digests. *)
Definition hex_digit (n : N) : ascii :=
  nth (N.to_nat n)
      ["0"; "1"; "2"; "3"; "4"; "5"; "6"; "7";
       "8"; "9"; "a"; "b"; "c"; "d"; "e"; "f"]%char "0"%char.

Fixpoint hex_of_bytes (bs : list byte) : string :=
  match bs with
  | [] => EmptyString
  | b :: r =>
      String (hex_digit (Byte.to_N b / 16))
        (String (hex_digit (Byte.to_N b mod 16)) (hex_of_bytes r))
  end.

Definition hex_value (c : ascii) : option N :=
  let n := N_of_ascii c in
  if ((48 <=? n) && (n <=? 57))%N then Some (n - 48)%N
  else if ((97 <=? n) && (n <=? 102))%N then Some (n - 87)%N
  else if ((65 <=? n) && (n <=? 70))%N then Some (n - 55)%N
  else None.

(** [Buffer.from(s, "hex")]: decodes pairs of hex digits and stops at the
    first pair that is not one. *)
Fixpoint Buffer_from_hex (s : string) : Buffer :=
  match s with
  | String c1 (String c2 r) =>
      match hex_value c1, hex_value c2 with
      | Some h, Some l => byte_of_N (16 * h + l) :: Buffer_from_hex r
      | _, _ => []
      end
  | _ => []
  end.

(** js-sha3's [keccak_256(message)]: the digest as a hex string. *)
Definition keccak_256 (data : Buffer) : string :=
  hex_of_bytes (Keccak.digest data).

(** [Buffer.from(keccak_256(data), "hex")], the idiom every hashing site of
    the SDK uses. *)
Definition keccak256 (data : Buffer) : Buffer :=
  Buffer_from_hex (keccak_256 data).

(* ===================================================================== *)
(** ** web3.js public keys *)
(* ===================================================================== *)

(** A [PublicKey] wraps a 256-bit number; [toBytes] is its 32-byte
    big-endian form. *)
Record PublicKey : Type := mkPublicKey { pk_bn : N }.

Definition toBytes (k : PublicKey) : Buffer := be_bytes 32 (pk_bn k).

#[global] Instance PublicKey_eq_dec : EqDecision PublicKey.
Proof. solve_decision. Defined.

#[global] Instance PublicKey_countable : Countable PublicKey :=
  inj_countable' pk_bn mkPublicKey (fun k => match k with mkPublicKey _ => eq_refl end).

(* ===================================================================== *)
(** ** sdk/compression.ts *)
(* ===================================================================== *)

(** [buf.writeBigInt64LE(v)] on a fresh 8-byte buffer: two's complement,
    little-endian; a value outside the signed 64-bit range throws. *)
Definition writeBigInt64LE (v : Z) : option Buffer :=
  if ((- 2^63 <=? v) && (v <? 2^63))%Z
  then Some (le_bytes 8 (Z.to_N (v mod 2^64)))
  else None.

(** [createCompressedVoterLeaf(voter, election, attestation, registeredAt)].
    [registeredAt] ranges over the integral numbers ([BigInt] of any other
    number throws before anything is hashed); [None] is a thrown
    RangeError. *)
Definition createCompressedVoterLeaf
    (voter election attestation : PublicKey) (registeredAt : Z) : option Buffer :=
  let voterBytes := toBytes voter in
  let electionBytes := toBytes election in
  let attestationBytes := toBytes attestation in
  registeredAtBytes ← writeBigInt64LE registeredAt;
  let data := Buffer_concat
    [voterBytes; electionBytes; attestationBytes; registeredAtBytes] in
  let hash := keccak_256 data in
  Some (Buffer_from_hex hash).

(** [class SimpleMerkleTree]: its only field is the array of leaves. *)
Record SimpleMerkleTree : Type := mkTree { leaves : list Buffer }.

(** [new SimpleMerkleTree()]. *)
Definition newTree : SimpleMerkleTree := mkTree [].

(** [addLeaf(leaf)]: [this.leaves.push(leaf)]. *)
Definition addLeaf (t : SimpleMerkleTree) (leaf : Buffer) : SimpleMerkleTree :=
  mkTree (leaves t ++ [leaf]).

(** [getLeaves()]. *)
Definition getLeaves (t : SimpleMerkleTree) : list Buffer := leaves t.

(** [this.leaves[i]]; the two reads of [getRoot] are in range, the default
    stands for the [undefined] they never see. *)
Definition leafAt (t : SimpleMerkleTree) (i : nat) : Buffer := nth i (leaves t) [].

(** [getRoot()]. *)
Definition getRoot (t : SimpleMerkleTree) : Buffer :=
  if (length (leaves t) =? 0)%nat then Buffer_alloc 32
  else if (length (leaves t) =? 1)%nat then leafAt t 0
  else leafAt t (length (leaves t) - 1).

(** [getProof(leafIndex)]. *)
Definition getProof (t : SimpleMerkleTree) (leafIndex : Z) : list Buffer := [].

(** [(leafIndex & (1 << i)) === 0]. *)
Definition isLeftNode (leafIndex : Z) (i : nat) : bool :=
  (JS.and leafIndex (JS.shl 1 (Z.of_nat i)) =? 0)%Z.

(** The [for] loop of [verifyProof], from level [i] on. *)
Fixpoint verifyLoop (proof : list Buffer) (i : nat) (leafIndex : Z)
    (computedHash : Buffer) : Buffer :=
  match proof with
  | [] => computedHash
  | sibling :: rest =>
      verifyLoop rest (S i) leafIndex
        (if isLeftNode leafIndex i
         then Buffer_from_hex (keccak_256 (Buffer_concat [computedHash; sibling]))
         else Buffer_from_hex (keccak_256 (Buffer_concat [sibling; computedHash])))
  end.

(** [SimpleMerkleTree.verifyProof(leaf, proof, leafIndex, root)]. *)
Definition verifyProof (leaf : Buffer) (proof : list Buffer) (leafIndex : Z)
    (root : Buffer) : bool :=
  if (length proof =? 0)%nat then Buffer_equals leaf root
  else Buffer_equals (verifyLoop proof 0 leafIndex leaf) root.

(** [getMerkleTreeSize(maxVoters)]: [depth, bufferSize]. *)
Definition getMerkleTreeSize (maxVoters : Z) : Z * Z :=
  if (maxVoters <=? 1024)%Z then (10, 64)%Z
  else if (maxVoters <=? 4096)%Z then (12, 64)%Z
  else if (maxVoters <=? 16384)%Z then (14, 64)%Z
  else (20, 256)%Z.

(** [createNullifier(voter, election, nonce = 0)]; [None] for the argument
    is an omitted (undefined) nonce. *)
Definition createNullifier (voter election : PublicKey) (nonce : option Z)
    : option Buffer :=
  let nonce := default 0%Z nonce in
  let voterBytes := toBytes voter in
  let electionBytes := toBytes election in
  nonceBytes ← writeBigInt64LE nonce;
  let data := Buffer_concat [voterBytes; electionBytes; nonceBytes] in
  let hash := keccak_256 data in
  Some (Buffer_from_hex hash).

(* ===================================================================== *)
(** ** tests/compression.test.ts *)
(* ===================================================================== *)

Module TestSuite.

(** The test file's own [createCompressedVoterLeaf] helper. *)
Definition createCompressedVoterLeaf
    (voter election attestation : PublicKey) (registeredAt : Z) : option Buffer :=
  let voterBytes := toBytes voter in
  let electionBytes := toBytes election in
  let attestationBytes := toBytes attestation in
  registeredAtBytes ← writeBigInt64LE registeredAt;
  let data := Buffer_concat
    [voterBytes; electionBytes; attestationBytes; registeredAtBytes] in
  let hash := keccak_256 data in
  Some (Buffer_from_hex hash).

End TestSuite.

(* ===================================================================== *)
(** ** What the specification says, in its own words *)
(* ===================================================================== *)

Module Spec.

(** A byte string read as a signed 64-bit little-endian integer. *)
Definition int64_of_le (bs : list byte) : Z :=
  let u := Z.of_N (le_value bs) in
  if (u <? 2^63)%Z then u else (u - 2^64)%Z.

(** The tree a sequence of admitted leaves produces. *)
Definition treeOf (ls : list Buffer) : SimpleMerkleTree :=
  fold_left addLeaf ls newTree.

(** The path hash rebuilt from a leaf and its siblings: at level [i] bit
    [i] of the leaf index picks the order, clear for
    hash(current || sibling), set for hash(sibling || current). *)
Fixpoint reconstruct (proof : list Buffer) (i : nat) (leafIndex : Z)
    (current : Buffer) : Buffer :=
  match proof with
  | [] => current
  | sibling :: rest =>
      reconstruct rest (S i) leafIndex
        (if Z.testbit leafIndex (Z.of_nat i)
         then Keccak.digest (sibling ++ current)
         else Keccak.digest (current ++ sibling))
  end.

(** [verifyMembership]: succeeds iff the rebuilt root is [root]. *)
Definition verifyMembership (leaf : Buffer) (proof : list Buffer)
    (leafIndex : Z) (root : Buffer) : bool :=
  bool_decide (reconstruct proof 0 leafIndex leaf = root).

(** One byte of a buffer replaced by a different one. *)
Inductive byte_changed : Buffer -> Buffer -> Prop :=
| byte_changed_at (pre post : list byte) (b b' : byte) :
    b <> b' -> byte_changed (pre ++ b :: post) (pre ++ b' :: post).



(** The messages the loop of verifyProof hands to keccak_256, from level
    [i] on, lowest level first. *)
Fixpoint hashed (proof : list Buffer) (i : nat) (leafIndex : Z)
    (computedHash : Buffer) : list Buffer :=
  match proof with
  | [] => []
  | sibling :: rest =>
      let message :=
        if isLeftNode leafIndex i
        then Buffer_concat [computedHash; sibling]
        else Buffer_concat [sibling; computedHash] in
      message :: hashed rest (S i) leafIndex (Buffer_from_hex (keccak_256 message))
  end.

(** Keccak-256 keeps two messages apart: one digest only for one message. *)
Definition kept_apart (x y : Buffer) : Prop :=
  Keccak.digest x = Keccak.digest y -> x = y.

(** Collision resistance where a verification and its perturbed rerun need
    it: at no level do the two runs hash different messages to one digest.
    Nothing is asked of any other pair of messages. *)
Definition collision_free (leafIndex : Z) (leaf : Buffer) (proof : list Buffer)
    (leaf' : Buffer) (proof' : list Buffer) : Prop :=
  Forall2 kept_apart (hashed proof 0 leafIndex leaf) (hashed proof' 0 leafIndex leaf').

#[global] Instance kept_apart_dec (x y : Buffer) : Decision (kept_apart x y).
Proof. unfold kept_apart. apply _. Defined.

#[global] Instance collision_free_dec (leafIndex : Z) (leaf : Buffer)
    (proof : list Buffer) (leaf' : Buffer) (proof' : list Buffer) :
  Decision (collision_free leafIndex leaf proof leaf' proof').
Proof. unfold collision_free. apply _. Defined.

End Spec.

(* ===================================================================== *)
(** ** The election ledger (the on-chain program) *)
(* ===================================================================== *)

Module Ledger.

(** Modelled from the spec: the four lifecycle states of section 4.1. *)
Inductive Status : Type := Pending | Active | Ended | Cancelled.

(** Modelled from the spec: the error kinds of section 7, and one more for
    the fatal overflow of a counter that section 4.4 asks to be checked. *)
Inductive Error : Type :=
| TooManyCandidates | InvalidTimeRange | InvalidChoice
| Unauthorized | AlreadyClosed
| ElectionNotStarted | ElectionEnded
| InvalidAttestation | ExpiredAttestation | AttestationMismatch
| DuplicateRegistration | CapacityExceeded
| InvalidMerkleProof | NotRegistered
| AlreadyVoted
| CounterOverflow.

Inductive result (A : Type) : Type :=
| Ok (a : A)
| Err (e : Error).
Arguments Ok {A} a.
Arguments Err {A} e.

(** Modelled from the spec: the Election record of section 3; the program's
    own account definition is not among the sources. *)
Record Election : Type := mkElection {
  election_ref : PublicKey;
  authority : PublicKey;
  candidates : list string;
  vote_counts : list N;
  total_votes : N;
  start_time : Z;
  end_time : Z;
  status : Status;
  accumulator_root : Buffer;
  registered_count : N;
  capacity : N;
  compression : bool }.

(** Modelled from the spec: the VoterAdmission record of section 3. *)
Record VoterAdmission : Type := mkAdmission {
  adm_wallet : PublicKey;
  adm_election : PublicKey;
  adm_attestation : PublicKey;
  adm_timestamp : Z }.

(** Modelled from the spec: the external Attestation of section 3, as the
    core reads it (subject, kind, expiry); [att_kind_ok] is the outcome of
    the external check of its kind. *)
Record Attestation : Type := mkAttestation {
  att_ref : PublicKey;
  att_subject : PublicKey;
  att_kind_ok : bool;
  att_expiry : Z }.

(** Modelled from the spec: the tagged eligibility evidence of section 9. *)
Inductive EligibilityEvidence : Type :=
| MembershipProof (leaf : Buffer) (index : Z) (siblings : list Buffer)
| DirectRecord (admissionRef : PublicKey).

(** Modelled from the spec: one entry of a batch, (wallet, choice,
    eligibilityEvidence) of section 4.5; a single vote is the same triple. *)
Record VoteEntry : Type := mkVote {
  v_wallet : PublicKey;
  v_choice : Z;
  v_evidence : EligibilityEvidence }.

(** Modelled from the spec: the context object of section 9, an election
    with the Accumulator, the registration guard, the discrete records of
    legacy mode and the NullifierRegistry scoped to it. *)
Record Context : Type := mkContext {
  election : Election;
  acc_leaves : list Buffer;
  guard : gset PublicKey;
  records : gmap PublicKey VoterAdmission;
  registry : gset Buffer }.

(** Bounds the README's account layout gives: labels of at most 50
    characters, counters of 64 bits. *)
Definition MAX_CANDIDATES : nat := 10.
Definition MAX_LABEL_LEN : nat := 50.
Definition COUNTER_MAX : N := (2^64 - 1)%N.

Definition set_status (e : Election) (st : Status) : Election :=
  mkElection (election_ref e) (authority e) (candidates e) (vote_counts e)
    (total_votes e) (start_time e) (end_time e) st (accumulator_root e)
    (registered_count e) (capacity e) (compression e).

Definition set_tally (e : Election) (counts : list N) (total : N) : Election :=
  mkElection (election_ref e) (authority e) (candidates e) counts
    total (start_time e) (end_time e) (status e) (accumulator_root e)
    (registered_count e) (capacity e) (compression e).

Definition set_accumulator (e : Election) (root : Buffer) (count : N) : Election :=
  mkElection (election_ref e) (authority e) (candidates e) (vote_counts e)
    (total_votes e) (start_time e) (end_time e) (status e) root
    count (capacity e) (compression e).

(** *** Accumulator *)

(** Modelled from the spec: the depth tiers of section 4.2. *)
Definition depth_for (cap : N) : nat :=
  if (cap <=? 1024)%N then 10
  else if (cap <=? 4096)%N then 12
  else if (cap <=? 16384)%N then 14
  else 20.

(** One level up: neighbours hashed in pairs, a lone last node with the
    empty subtree [z] of its level. *)
Fixpoint pair_up (z : Buffer) (layer : list Buffer) : list Buffer :=
  match layer with
  | a :: b :: rest => Keccak.digest (a ++ b) :: pair_up z rest
  | [a] => [Keccak.digest (a ++ z)]
  | [] => []
  end.

Fixpoint root_from (levels : nat) (z : Buffer) (layer : list Buffer) : Buffer :=
  match levels with
  | O => hd z layer
  | S n => root_from n (Keccak.digest (z ++ z)) (pair_up z layer)
  end.

(** Modelled from the spec: the root of the fixed-depth binary hash
    structure over the leaves appended so far; with no leaf it is the
    canonical empty-tree root. *)
Definition merkle_root (depth : nat) (ls : list Buffer) : Buffer :=
  root_from depth (Buffer_alloc 32) ls.

Fixpoint path_from (levels : nat) (z : Buffer) (layer : list Buffer)
    (idx : nat) : list Buffer :=
  match levels with
  | O => []
  | S n =>
      nth (if Nat.even idx then idx + 1 else idx - 1)%nat layer z
        :: path_from n (Keccak.digest (z ++ z)) (pair_up z layer) (idx / 2)
  end.

(** Modelled from the spec: a membership proof, the sibling hashes from the
    leaf at [idx] up to the root (glossary). *)
Definition merkle_path (depth : nat) (ls : list Buffer) (idx : nat) : list Buffer :=
  path_from depth (Buffer_alloc 32) ls idx.

(** Modelled from the spec:
    leaf = Hash(wallet || election || attestationRef || timestamp), in the
    layout the client regenerates. *)
Definition leaf_hash (wallet el att : PublicKey) (timestamp : Z) : Buffer :=
  Keccak.digest (toBytes wallet ++ toBytes el ++ toBytes att
                 ++ le_bytes 8 (Z.to_N (timestamp mod 2^64))).

(** Modelled from the spec: Hash(wallet || election || nonce). *)
Definition nullifier_of (wallet el : PublicKey) (nonce : Z) : Buffer :=
  Keccak.digest (toBytes wallet ++ toBytes el
                 ++ le_bytes 8 (Z.to_N (nonce mod 2^64))).

(** *** ElectionStateMachine *)

(** Modelled from the spec: the status an operation sees at time [now];
    Pending to Active to Ended is derived from the clock, a closed or
    cancelled election stays as it is (section 4.1). *)
Definition current_status (e : Election) (now : Z) : Status :=
  match status e with
  | Ended => Ended
  | Cancelled => Cancelled
  | Pending | Active =>
      if (now <? start_time e)%Z then Pending
      else if (now <? end_time e)%Z then Active
      else Ended
  end.

Definition label_ok (l : string) : bool :=
  (1 <=? String.length l)%nat && (String.length l <=? MAX_LABEL_LEN)%nat.

(** Modelled from the spec: [create] of section 4.1, in place of the
    program's create_election instruction, which is not among the sources.
    The spec names two error kinds for it; a bad candidate list is reported
    as the first, a bad time range or a zero capacity as the second. *)
Definition create (ref caller : PublicKey) (now : Z) (cands : list string)
    (start finish : Z) (compressionMode : bool) (cap : N) : result Context :=
  if negb ((1 <=? length cands)%nat && (length cands <=? MAX_CANDIDATES)%nat
           && forallb label_ok cands)
  then Err TooManyCandidates
  else if negb (start <? finish)%Z || (cap =? 0)%N
  then Err InvalidTimeRange
  else Ok (mkContext
    (mkElection ref caller cands (repeat 0%N (length cands)) 0%N
       start finish (if (start <=? now)%Z then Active else Pending)
       (merkle_root (depth_for cap) []) 0%N cap compressionMode)
    [] ∅ ∅ ∅).

(** Modelled from the spec: [close] of section 4.1, in place of the
    program's close_election instruction, which is not among the sources. *)
Definition close (c : Context) (caller : PublicKey) : result Context :=
  if negb (bool_decide (caller = authority (election c))) then Err Unauthorized
  else match status (election c) with
       | Ended => Err AlreadyClosed
       | _ => Ok (mkContext (set_status (election c) Ended)
                    (acc_leaves c) (guard c) (records c) (registry c))
       end.

(** Modelled from the spec: [register] (the Accumulator's admission
    operation) of section 4.2, in place of the program's register_voter
    instruction, which is not among the sources; with the mandatory
    per-wallet guard; on success it also returns (leafIndex, newRoot). The
    compression-mode flag
    selects whether the voter becomes a discrete record or is only folded
    into the accumulator (section 3). *)
Definition register (c : Context) (now : Z) (wallet : PublicKey)
    (att : Attestation) : result (Context * (N * Buffer)) :=
  let e := election c in
  if negb (att_kind_ok att) then Err InvalidAttestation
  else if negb (bool_decide (att_subject att = wallet)) then Err AttestationMismatch
  else if (att_expiry att <=? now)%Z then Err ExpiredAttestation
  else if bool_decide (wallet ∈ guard c) then Err DuplicateRegistration
  else if (capacity e <=? registered_count e)%N then Err CapacityExceeded
  else
    let idx := registered_count e in
    if compression e then
      let leaf := leaf_hash wallet (election_ref e) (att_ref att) now in
      let ls := acc_leaves c ++ [leaf] in
      let root := merkle_root (depth_for (capacity e)) ls in
      Ok (mkContext (set_accumulator e root (idx + 1)%N)
            ls ({[ wallet ]} ∪ guard c) (records c) (registry c),
          (idx, root))
    else
      Ok (mkContext (set_accumulator e (accumulator_root e) (idx + 1)%N)
            (acc_leaves c) ({[ wallet ]} ∪ guard c)
            (<[ wallet := mkAdmission wallet (election_ref e) (att_ref att) now ]>
               (records c))
            (registry c),
          (idx, accumulator_root e)).

(** *** NullifierRegistry *)

Definition isUsed (c : Context) (n : Buffer) : bool :=
  bool_decide (n ∈ registry c).

(** *** TallyStore *)

(** Modelled from the spec: whether the evidence verifies, resolved by the
    compression-mode flag (sections 4.2, 4.4 and 9). *)
Definition check_evidence (c : Context) (wallet : PublicKey)
    (ev : EligibilityEvidence) : result unit :=
  if compression (election c) then
    match ev with
    | MembershipProof leaf index siblings =>
        if Spec.verifyMembership leaf siblings index
             (accumulator_root (election c))
        then Ok tt else Err InvalidMerkleProof
    | DirectRecord _ => Err InvalidMerkleProof
    end
  else
    match ev with
    | DirectRecord ref =>
        match records c !! ref with
        | Some r => if bool_decide (adm_wallet r = wallet)
                    then Ok tt else Err NotRegistered
        | None => Err NotRegistered
        end
    | MembershipProof _ _ _ => Err NotRegistered
    end.

(** Modelled from the spec: [castVote] of section 4.4, in place of the
    program's cast_vote instruction, which is not among the sources.
    Preconditions in the order the spec lists them, then the three effects
    together. *)
Definition castVote (c : Context) (now : Z) (v : VoteEntry) : result Context :=
  let e := election c in
  match current_status e now with
  | Pending => Err ElectionNotStarted
  | Ended | Cancelled => Err ElectionEnded
  | Active =>
      if negb ((0 <=? v_choice v)%Z
               && (v_choice v <? Z.of_nat (length (candidates e)))%Z)
      then Err InvalidChoice
      else match check_evidence c (v_wallet v) (v_evidence v) with
      | Err err => Err err
      | Ok _ =>
          let n := nullifier_of (v_wallet v) (election_ref e) 0 in
          if isUsed c n then Err AlreadyVoted
          else
            let i := Z.to_nat (v_choice v) in
            if (COUNTER_MAX <=? nth i (vote_counts e) 0%N)%N
               || (COUNTER_MAX <=? total_votes e)%N
            then Err CounterOverflow
            else Ok (mkContext
                       (set_tally e (alter N.succ i (vote_counts e))
                          (N.succ (total_votes e)))
                       (acc_leaves c) (guard c) (records c)
                       ({[ n ]} ∪ registry c))
      end
  end.

(** *** BatchCoordinator *)

(** Modelled from the spec: the entries in order, each applied to a working
    copy; the first failure ends the batch (section 4.5). *)
Fixpoint process (work : Context) (now : Z) (entries : list VoteEntry)
    : result Context :=
  match entries with
  | [] => Ok work
  | v :: rest =>
      match castVote work now v with
      | Ok work' => process work' now rest
      | Err e => Err e
      end
  end.

(** Modelled from the spec: [castBatch] of section 4.5, in place of the
    program's cast_batch_votes instruction, which is not among the sources;
    the working copy is committed only when every entry went through. The
    operational cap on the length of a batch bounds what callers send and
    has no error kind of its own in the spec; it is not modelled. *)
Definition castBatch (c : Context) (now : Z) (entries : list VoteEntry)
    : result Context :=
  process c now entries.

(** Modelled from the spec: the context an operation leaves behind, the new
    one on success, the old one untouched on failure (section 7). *)
Definition commit {A : Type} (c : Context) (proj : A -> Context)
    (r : result A) : Context :=
  match r with
  | Ok a => proj a
  | Err _ => c
  end.

(** Modelled from the spec: the operations of the external surface of
    section 6 that act on an existing election. *)
Inductive Operation : Type :=
| OpRegister (wallet : PublicKey) (att : Attestation)
| OpCastVote (v : VoteEntry)
| OpCastBatch (entries : list VoteEntry)
| OpClose (caller : PublicKey).

(** Modelled from the spec: one run-to-completion transaction, the clock
    sampled once, at [now] (section 5). *)
Definition step (c : Context) (now : Z) (op : Operation) : Context :=
  match op with
  | OpRegister w att => commit c fst (register c now w att)
  | OpCastVote v => commit c id (castVote c now v)
  | OpCastBatch entries => commit c id (castBatch c now entries)
  | OpClose caller => commit c id (close c caller)
  end.

(** States reachable from a successful [create] by any sequence of
    operations at any times. *)
Inductive reachable : Context -> Prop :=
| reachable_create ref caller now cands start finish mode cap c :
    create ref caller now cands start finish mode cap = Ok c ->
    reachable c
| reachable_step c now op :
    reachable c -> reachable (step c now op).

Definition sum_counts (counts : list N) : N := fold_right N.add 0%N counts.

(** The invariant of section 3 on the tally: one counter per candidate, and
    the counters add up to the aggregate. *)
Definition tally_ok (c : Context) : Prop :=
  length (vote_counts (election c)) = length (candidates (election c))
  /\ sum_counts (vote_counts (election c)) = total_votes (election c).

(** [w] is [c] after some votes were counted: nothing but the tally and the
    nullifier set differs, and those only grew. *)
Definition grows (c w : Context) : Prop :=
  set_tally (election w) (vote_counts (election c)) (total_votes (election c))
    = election c
  /\ acc_leaves w = acc_leaves c
  /\ guard w = guard c
  /\ records w = records c
  /\ registry c ⊆ registry w
  /\ (total_votes (election c) <= total_votes (election w))%N
  /\ forall i : nat,
       (nth i (vote_counts (election c)) 0 <= nth i (vote_counts (election w)) 0)%N.

(** A sequence of timed operations, one transaction after the other. *)
Definition run (c : Context) (ops : list (Z * Operation)) : Context :=
  fold_left (fun c o => step c (fst o) (snd o)) ops c.

End Ledger.

(* ===================================================================== *)
(** ** Scenarios of section 8 *)
(* ===================================================================== *)

Module Scenario.
Import Ledger.

Definition t0 : Z := 1700000000.
Definition authorityKey : PublicKey := mkPublicKey 7.
Definition wallet (n : N) : PublicKey := mkPublicKey n.

(** A valid attestation of wallet [n], good for a long time. *)
Definition attestationFor (n : N) : Attestation :=
  mkAttestation (mkPublicKey (1000 + n)) (wallet n) true (t0 + 1000000).

Definition registerOp (n : N) : Z * Operation :=
  (t0, OpRegister (wallet n) (attestationFor n)).

(** Scenario A: candidates Alice, Bob and Charlie, start = now,
    end = now + 86400; here in legacy mode. *)
Definition legacyFresh : Context :=
  mkContext
    (mkElection (mkPublicKey 100) authorityKey ["Alice"; "Bob"; "Charlie"]%string
       [0; 0; 0]%N 0%N t0 (t0 + 86400) Active (merkle_root 10 []) 0%N 1000%N false)
    [] ∅ ∅ ∅.

Definition legacyRegistered : Context :=
  run legacyFresh [registerOp 1; registerOp 2; registerOp 3; registerOp 4].

Definition directVote (n : N) (choice : Z) : VoteEntry :=
  mkVote (wallet n) choice (DirectRecord (wallet n)).

Definition scenarioA : Context :=
  run legacyRegistered
    [(t0 + 1, OpCastVote (directVote 1 0));
     (t0 + 2, OpCastVote (directVote 2 1));
     (t0 + 3, OpCastVote (directVote 3 2))]%Z.

(** Scenario D: wallet 4 has voted; then a batch of three fresh votes and
    one more vote of wallet 4. *)
Definition spent : Context :=
  run legacyRegistered [(t0 + 1, OpCastVote (directVote 4 0))]%Z.

Definition threeFresh : list VoteEntry :=
  [directVote 1 0; directVote 2 1; directVote 3 2].

Definition batchD : list VoteEntry := threeFresh ++ [directVote 4 1].

(** The same election in compression mode, two wallets registered. *)
Definition compressedFresh : Context :=
  mkContext
    (mkElection (mkPublicKey 100) authorityKey ["Alice"; "Bob"; "Charlie"]%string
       [0; 0; 0]%N 0%N t0 (t0 + 86400) Active (merkle_root 10 []) 0%N 1000%N true)
    [] ∅ ∅ ∅.

Definition compressedRegistered : Context :=
  run compressedFresh [registerOp 1; registerOp 2].

(** The vote of wallet [n], registered at leaf index [idx], with the
    membership proof the accumulator of [c] yields. *)
Definition provenVote (c : Context) (n : N) (idx : nat) (choice : Z) : VoteEntry :=
  mkVote (wallet n) choice
    (MembershipProof
       (leaf_hash (wallet n) (election_ref (election c))
          (att_ref (attestationFor n)) t0)
       (Z.of_nat idx)
       (merkle_path (depth_for (capacity (election c))) (acc_leaves c) idx)).

End Scenario.

(* ===================================================================== *)
(** ** Sample data *)
(* ===================================================================== *)

Module Sample.

Definition electionKey : PublicKey := mkPublicKey 100.
Definition attestationKey : PublicKey := mkPublicKey 200.
Definition registeredAt : Z := 1700000000.

(** The leaf of voter number [n]. *)
Definition leafOf (n : N) : Buffer :=
  default [] (createCompressedVoterLeaf (mkPublicKey n) electionKey
                attestationKey registeredAt).

(** A tree with the leaves of voters 1 and 2, in that order. *)
Definition twoVoters : SimpleMerkleTree :=
  addLeaf (addLeaf newTree (leafOf 1)) (leafOf 2).

(** A proof one level deeper than JavaScript's shift operator can count:
    33 sibling hashes. *)
Definition deepProof : list Buffer := repeat (Buffer_alloc 32) 33.

(** A one-level tree: a leaf, its right sibling and their parent; and the
    leaf with its first byte changed, the sibling with its last. *)
Definition plainLeaf : Buffer := x01 :: Buffer_alloc 31.
Definition changedLeaf : Buffer := x02 :: Buffer_alloc 31.
Definition plainSibling : Buffer := Buffer_alloc 32.
Definition changedSibling : Buffer := Buffer_alloc 31 ++ [xff].
Definition plainRoot : Buffer := Keccak.digest (plainLeaf ++ plainSibling).

(** One level more: the parent above, with the same sibling to its right. *)
Definition upperRoot : Buffer := Keccak.digest (plainRoot ++ plainSibling).

End Sample.

(* ===================================================================== *)
(** ** More of sdk/compression.ts and of the test file *)
(* ===================================================================== *)

(** [formatLeafHash(leafHash)]:
    [leafHash.toString("hex").substring(0, 16) + "..."]. *)
Definition formatLeafHash (leafHash : Buffer) : string :=
  (String.substring 0 16 (hex_of_bytes leafHash) ++ "...")%string.

Module TestTree.

(** The test file's own [class SimpleMerkleTree]. *)
Record SimpleMerkleTree : Type := mkTree { leaves : list Buffer }.

Definition newTree : SimpleMerkleTree := mkTree [].

Definition addLeaf (t : SimpleMerkleTree) (leaf : Buffer) : SimpleMerkleTree :=
  mkTree (leaves t ++ [leaf]).

Definition getRoot (t : SimpleMerkleTree) : Buffer :=
  if (length (leaves t) =? 0)%nat then Buffer_alloc 32
  else if (length (leaves t) =? 1)%nat then nth 0 (leaves t) []
  else nth (length (leaves t) - 1) (leaves t) [].

Definition getProof (t : SimpleMerkleTree) (leafIndex : Z) : list Buffer := [].

End TestTree.

(** What the properties below are stated against. *)
Module Ref.

(** A web3.js [PublicKey] never holds more than 32 bytes. *)
Definition validKey (k : PublicKey) : Prop := (pk_bn k < 2^256)%N.

(** Two distinct messages with one Keccak-256 digest, of any lengths. *)
Definition digest_clash (x y : Buffer) : Prop :=
  x <> y /\ Keccak.digest x = Keccak.digest y.

(** Two inputs of verifyProof of one shape: leaves of one length, as many
    siblings, each pair of one length. *)
Definition same_shape (leaf leaf' : Buffer) (proof proof' : list Buffer) : Prop :=
  length leaf = length leaf'
  /\ Forall2 (fun s s' : Buffer => length s = length s') proof proof'.

(** A binary hash tree: leaves hold their hashes, a node's hash is the
    digest of its children's hashes, left before right. *)
Inductive tree : Type :=
| Leaf (hash : Buffer)
| Node (l r : tree).

Fixpoint root (t : tree) : Buffer :=
  match t with
  | Leaf h => h
  | Node l r => Keccak.digest (root l ++ root r)
  end.

(** Every leaf at depth [h]. *)
Fixpoint perfect (h : nat) (t : tree) : Prop :=
  match h, t with
  | O, Leaf _ => True
  | S h', Node l r => perfect h' l /\ perfect h' r
  | _, _ => False
  end.

(** The leaves from left to right. *)
Fixpoint flatten (t : tree) : list Buffer :=
  match t with
  | Leaf h => [h]
  | Node l r => flatten l ++ flatten r
  end.

(** The leaf the index leads to: bit [h - 1] picks the child of the root,
    and so on down to bit 0. *)
Fixpoint leafAt (h : nat) (t : tree) (idx : Z) : Buffer :=
  match t, h with
  | Node l r, S h' =>
      if Z.testbit idx (Z.of_nat h') then leafAt h' r idx else leafAt h' l idx
  | Leaf b, _ => b
  | Node _ _, O => []
  end.

(** The sibling hashes along that way, lowest level first. *)
Fixpoint path (h : nat) (t : tree) (idx : Z) : list Buffer :=
  match t, h with
  | Node l r, S h' =>
      if Z.testbit idx (Z.of_nat h')
      then path h' r idx ++ [root l]
      else path h' l idx ++ [root r]
  | _, _ => []
  end.

(** A tree of height 2 over four sample leaves. *)
Definition fourLeaves : tree :=
  Node (Node (Leaf (Buffer_alloc 32)) (Leaf (x01 :: Buffer_alloc 31)))
       (Node (Leaf (x02 :: Buffer_alloc 31)) (Leaf (x03 :: Buffer_alloc 31))).

(** The 104 bytes createCompressedVoterLeaf hashes when registeredAt is a
    signed 64-bit integer. *)
Definition leafMessage (voter election attestation : PublicKey)
    (registeredAt : Z) : Buffer :=
  toBytes voter ++ toBytes election ++ toBytes attestation
  ++ le_bytes 8 (Z.to_N (registeredAt mod 2^64)).

(** The 72 bytes createNullifier hashes when the nonce is a signed 64-bit
    integer. *)
Definition nullifierMessage (voter election : PublicKey) (nonce : Z) : Buffer :=
  toBytes voter ++ toBytes election ++ le_bytes 8 (Z.to_N (nonce mod 2^64)).

(** The test file's tree holding the leaves of an SDK tree. *)
Definition testTreeOf (t : SimpleMerkleTree) : TestTree.SimpleMerkleTree :=
  TestTree.mkTree (leaves t).

End Ref.

(* ===================================================================== *)
(** * Properties *)
(* ===================================================================== *)

(** ** Known digests *)

Example keccak_empty :
  keccak_256 [] = "c5d2460186f7233c927e7db2dcc703c0e500b653ca82273b7bfad8045d85a470"%string.
Proof. vm_compute. reflexivity. Qed.

Example keccak_abc :
  keccak_256 [x61; x62; x63] = "4e03657aea45a94fc7d47ba826c8d667c0d1e6e33a64a036ec44f58fa12d6c45"%string.
Proof. vm_compute. reflexivity. Qed.

Example keccak_block_boundary :
  keccak_256 (Buffer_alloc 135) = "29e3704feeca7fb9ba229f0fa04d9b36449cf3ad6e1d85d9cfff3a10df9abc3e"%string
  /\ keccak_256 (Buffer_alloc 136) = "3a5912a7c5faa06ee4fe906253e339467a9ce87d533c65be3c15cb231cdb25f9"%string
  /\ keccak_256 (Buffer_alloc 64) = "ad3228b676f7d3cd4284a5443f17f1962b36e491b30a40b2405849e597ba5fb5"%string.
Proof. vm_compute. repeat split. Qed.

(** ** Bytes, hex and lengths *)

Lemma hex_pair_decodes (b : byte) (r : string) :
  Buffer_from_hex
    (String (hex_digit (Byte.to_N b / 16))
       (String (hex_digit (Byte.to_N b mod 16)) r))
  = b :: Buffer_from_hex r.
Proof. destruct b; reflexivity. Qed.

Lemma Buffer_from_hex_of_bytes (bs : list byte) :
  Buffer_from_hex (hex_of_bytes bs) = bs.
Proof.
  induction bs as [|b r IH]; [reflexivity|].
  cbn [hex_of_bytes]. rewrite hex_pair_decodes. by rewrite IH.
Qed.

Lemma keccak256_digest (data : Buffer) : keccak256 data = Keccak.digest data.
Proof. apply Buffer_from_hex_of_bytes. Qed.

Lemma le_bytes_length (n : nat) (v : N) : length (le_bytes n v) = n.
Proof. revert v. induction n as [|n IH]; intros v; simpl; [done|]. by rewrite IH. Qed.

Lemma digest_length (data : Buffer) : length (Keccak.digest data) = 32%nat.
Proof.
  unfold Keccak.digest, Keccak.squeeze. cbn [seq flat_map].
  rewrite !length_app, !le_bytes_length. reflexivity.
Qed.

Lemma toBytes_length (k : PublicKey) : length (toBytes k) = 32%nat.
Proof. unfold toBytes, be_bytes. rewrite length_rev. apply le_bytes_length. Qed.

Lemma byte_of_N_to_N (n : N) : Byte.to_N (byte_of_N n) = (n mod 256)%N.
Proof.
  unfold byte_of_N.
  destruct (Byte.of_N (n mod 256)) as [b|] eqn:E.
  - by apply Byte.to_of_N.
  - apply Byte.of_N_None_iff in E.
    pose proof (N.mod_lt n 256). lia.
Qed.

Lemma le_value_le_bytes (n : nat) (v : N) :
  le_value (le_bytes n v) = (v mod 256 ^ N.of_nat n)%N.
Proof.
  revert v. induction n as [|n IH]; intros v.
  - simpl. by rewrite N.mod_1_r.
  - cbn [le_bytes le_value]. rewrite byte_of_N_to_N, IH.
    replace (256 ^ N.of_nat (S n))%N with (256 * 256 ^ N.of_nat n)%N
      by (rewrite Nat2N.inj_succ, N.pow_succ_r'; lia).
    rewrite N.Div0.mod_mul_r. lia.
Qed.

Lemma int64_roundtrip (v : Z) :
  (- 2^63 <= v < 2^63)%Z ->
  Spec.int64_of_le (le_bytes 8 (Z.to_N (v mod 2^64))) = v.
Proof.
  intros Hv. unfold Spec.int64_of_le. rewrite le_value_le_bytes.
  change (256 ^ N.of_nat 8)%N with (2^64)%N.
  assert (Hm : (0 <= v mod 2^64 < 2^64)%Z) by (apply Z.mod_pos_bound; lia).
  rewrite N.mod_small by lia.
  rewrite Z2N.id by lia.
  destruct (Z.ltb_spec (v mod 2^64) (2^63)) as [Hlt|Hge].
  - destruct (Z.lt_ge_cases v 0) as [Hneg|Hpos].
    + rewrite <- (Z.mod_add v 1 (2^64)) in Hlt by lia.
      rewrite Z.mod_small in Hlt by lia. lia.
    + rewrite Z.mod_small by lia. reflexivity.
  - destruct (Z.lt_ge_cases v 0) as [Hneg|Hpos].
    + rewrite <- (Z.mod_add v 1 (2^64)) by lia.
      rewrite Z.mod_small by lia. lia.
    + rewrite Z.mod_small in Hge by lia. lia.
Qed.

Lemma writeBigInt64LE_in_range (v : Z) :
  (- 2^63 <= v < 2^63)%Z ->
  writeBigInt64LE v = Some (le_bytes 8 (Z.to_N (v mod 2^64))).
Proof.
  intros [Hlo Hhi]. unfold writeBigInt64LE.
  destruct (Z.leb_spec (- 2^63) v); [|lia].
  destruct (Z.ltb_spec v (2^63)); [|lia]. reflexivity.
Qed.

(** ** Leaf and nullifier derivation *)

(** C6. createCompressedVoterLeaf is a fixed function of its four
    arguments: whenever registeredAt is a signed 64-bit integer the result
    is the Keccak-256 digest of the 104 bytes
    voter (32) || election (32) || attestation (32) || registeredAt (8),
    the last being the signed 64-bit little-endian form of registeredAt;
    and the SDK's function and the test suite's helper agree on every
    input, the throwing ones included. *)
Theorem createCompressedVoterLeaf_layout :
  (forall (voter election attestation : PublicKey) (registeredAt : Z),
      (- 2^63 <= registeredAt < 2^63)%Z ->
      exists ts : Buffer,
        length ts = 8%nat /\
        Spec.int64_of_le ts = registeredAt /\
        length (toBytes voter) = 32%nat /\
        length (toBytes election) = 32%nat /\
        length (toBytes attestation) = 32%nat /\
        length (toBytes voter ++ toBytes election ++ toBytes attestation ++ ts)
          = 104%nat /\
        createCompressedVoterLeaf voter election attestation registeredAt
          = Some (Keccak.digest
                    (toBytes voter ++ toBytes election ++ toBytes attestation ++ ts)))
  /\
  (forall (voter election attestation : PublicKey) (registeredAt : Z),
      createCompressedVoterLeaf voter election attestation registeredAt
      = TestSuite.createCompressedVoterLeaf voter election attestation registeredAt).
Proof.
  split; [|reflexivity].
  intros voter election attestation t Ht.
  exists (le_bytes 8 (Z.to_N (t mod 2^64))).
  repeat apply conj.
  - apply le_bytes_length.
  - by apply int64_roundtrip.
  - apply toBytes_length.
  - apply toBytes_length.
  - apply toBytes_length.
  - rewrite !length_app, !toBytes_length, le_bytes_length. reflexivity.
  - unfold createCompressedVoterLeaf.
    rewrite writeBigInt64LE_in_range by done. cbn [mbind option_bind].
    unfold keccak_256. rewrite Buffer_from_hex_of_bytes.
    unfold Buffer_concat. cbn [List.concat]. by rewrite app_nil_r.
Qed.

Lemma createCompressedVoterLeaf_layout_witness :
  exists ts : Buffer,
    length ts = 8%nat /\
    Spec.int64_of_le ts = 1700000000%Z /\
    length (toBytes (mkPublicKey 1)) = 32%nat /\
    length (toBytes (mkPublicKey 2)) = 32%nat /\
    length (toBytes (mkPublicKey 3)) = 32%nat /\
    length (toBytes (mkPublicKey 1) ++ toBytes (mkPublicKey 2)
            ++ toBytes (mkPublicKey 3) ++ ts) = 104%nat /\
    createCompressedVoterLeaf (mkPublicKey 1) (mkPublicKey 2) (mkPublicKey 3)
      1700000000
    = Some (Keccak.digest
              (toBytes (mkPublicKey 1) ++ toBytes (mkPublicKey 2)
               ++ toBytes (mkPublicKey 3) ++ ts)).
Proof.
  apply (proj1 createCompressedVoterLeaf_layout
           (mkPublicKey 1) (mkPublicKey 2) (mkPublicKey 3) 1700000000%Z).
  lia.
Defined.

(** A timestamp beyond the signed 64-bit range makes both implementations
    throw. *)
Example createCompressedVoterLeaf_out_of_range :
  createCompressedVoterLeaf (mkPublicKey 1) (mkPublicKey 2) (mkPublicKey 3) (2^63)
  = None.
Proof. reflexivity. Qed.

(** C8. createNullifier returns the Keccak-256 digest of the 72 bytes
    voter (32) || election (32) || nonce (8), the nonce in signed 64-bit
    little-endian form; an omitted nonce is 0; equal arguments give equal
    tokens. *)
Theorem createNullifier_layout :
  (forall (voter election : PublicKey) (nonce : Z),
      (- 2^63 <= nonce < 2^63)%Z ->
      exists ns : Buffer,
        length ns = 8%nat /\
        Spec.int64_of_le ns = nonce /\
        length (toBytes voter ++ toBytes election ++ ns) = 72%nat /\
        createNullifier voter election (Some nonce)
          = Some (Keccak.digest (toBytes voter ++ toBytes election ++ ns)))
  /\
  (forall voter election : PublicKey,
      createNullifier voter election None
      = createNullifier voter election (Some 0%Z)
      /\ createNullifier voter election None
         = Some (Keccak.digest
                   (toBytes voter ++ toBytes election ++ Buffer_alloc 8)))
  /\
  (forall (voter voter' election election' : PublicKey) (nonce nonce' : option Z),
      voter = voter' -> election = election' -> nonce = nonce' ->
      createNullifier voter election nonce
      = createNullifier voter' election' nonce').
Proof.
  split; [|split].
  - intros voter election nonce Hn.
    exists (le_bytes 8 (Z.to_N (nonce mod 2^64))).
    repeat apply conj.
    + apply le_bytes_length.
    + by apply int64_roundtrip.
    + rewrite !length_app, !toBytes_length, le_bytes_length. reflexivity.
    + unfold createNullifier. cbn [default].
      rewrite writeBigInt64LE_in_range by done. cbn [mbind option_bind].
      unfold keccak_256. rewrite Buffer_from_hex_of_bytes.
      unfold Buffer_concat. cbn [List.concat]. by rewrite app_nil_r.
  - intros voter election. split; [reflexivity|].
    unfold createNullifier. cbn [default].
    rewrite writeBigInt64LE_in_range by lia. cbn [mbind option_bind].
    unfold keccak_256. rewrite Buffer_from_hex_of_bytes.
    unfold Buffer_concat. cbn [List.concat]. by rewrite app_nil_r.
  - intros; by subst.
Qed.

Lemma createNullifier_layout_witness :
  exists ns : Buffer,
    length ns = 8%nat /\
    Spec.int64_of_le ns = (-5)%Z /\
    length (toBytes (mkPublicKey 1) ++ toBytes (mkPublicKey 2) ++ ns) = 72%nat /\
    createNullifier (mkPublicKey 1) (mkPublicKey 2) (Some (-5)%Z)
      = Some (Keccak.digest (toBytes (mkPublicKey 1) ++ toBytes (mkPublicKey 2) ++ ns)).
Proof.
  apply (proj1 createNullifier_layout (mkPublicKey 1) (mkPublicKey 2) (-5)%Z).
  lia.
Defined.

Example createNullifier_default_digest :
  hex_of_bytes <$> createNullifier (mkPublicKey 0) (mkPublicKey 0) None
  = Some (keccak_256 (Buffer_alloc 72)).
Proof. vm_compute. reflexivity. Qed.

(** ** Tree sizing *)

(** C7. getMerkleTreeSize returns depth 10 up to 1024 voters, depth 12 up
    to 4096, depth 14 up to 16384 and depth 20 beyond, with buffer size 64
    in the first three tiers and 256 in the last. *)
Theorem getMerkleTreeSize_tiers (maxVoters : Z) :
  ((maxVoters <= 1024)%Z -> getMerkleTreeSize maxVoters = (10, 64)%Z) /\
  ((1024 < maxVoters <= 4096)%Z -> getMerkleTreeSize maxVoters = (12, 64)%Z) /\
  ((4096 < maxVoters <= 16384)%Z -> getMerkleTreeSize maxVoters = (14, 64)%Z) /\
  ((16384 < maxVoters)%Z -> getMerkleTreeSize maxVoters = (20, 256)%Z).
Proof.
  unfold getMerkleTreeSize.
  repeat split; intros H;
    destruct (Z.leb_spec maxVoters 1024);
    destruct (Z.leb_spec maxVoters 4096);
    destruct (Z.leb_spec maxVoters 16384); (reflexivity || lia).
Qed.

Lemma getMerkleTreeSize_tiers_witness :
  getMerkleTreeSize 1024 = (10, 64)%Z /\
  getMerkleTreeSize 1025 = (12, 64)%Z /\
  getMerkleTreeSize 10000 = (14, 64)%Z /\
  getMerkleTreeSize 16385 = (20, 256)%Z.
Proof.
  repeat apply conj.
  - apply (proj1 (getMerkleTreeSize_tiers 1024)). lia.
  - apply (proj1 (proj2 (getMerkleTreeSize_tiers 1025))). lia.
  - apply (proj1 (proj2 (proj2 (getMerkleTreeSize_tiers 10000)))). lia.
  - apply (proj2 (proj2 (proj2 (getMerkleTreeSize_tiers 16385)))). lia.
Defined.

(** ** SimpleMerkleTree *)

Lemma leaves_fold_addLeaf (ls : list Buffer) (t : SimpleMerkleTree) :
  leaves (fold_left addLeaf ls t) = leaves t ++ ls.
Proof.
  revert t. induction ls as [|l ls IH]; intros t; simpl.
  - by rewrite app_nil_r.
  - rewrite IH. simpl. by rewrite <- app_assoc.
Qed.

Lemma leaves_treeOf (ls : list Buffer) : leaves (Spec.treeOf ls) = ls.
Proof. unfold Spec.treeOf. by rewrite leaves_fold_addLeaf. Qed.

Lemma getRoot_last (t : SimpleMerkleTree) :
  leaves t <> [] -> last (leaves t) = Some (getRoot t).
Proof.
  intros Hne. unfold getRoot, leafAt.
  destruct (leaves t) as [|a [|b r]] eqn:E; [done|reflexivity|].
  cbn [length Nat.eqb].
  rewrite last_lookup, nth_lookup.
  replace (S (S (length r)) - 1)%nat with (S (length r)) by lia.
  cbn [length Nat.pred].
  destruct ((a :: b :: r) !! S (length r)) eqn:L; [done|].
  apply lookup_ge_None in L. simpl in L. lia.
Qed.

Lemma getRoot_addLeaf (t : SimpleMerkleTree) (leaf : Buffer) :
  getRoot (addLeaf t leaf) = leaf.
Proof.
  assert (H : last (leaves (addLeaf t leaf)) = Some (getRoot (addLeaf t leaf))).
  { apply getRoot_last. simpl. by destruct (leaves t). }
  simpl in H. rewrite last_snoc in H. congruence.
Qed.

Lemma Buffer_equals_true (a b : Buffer) : Buffer_equals a b = true <-> a = b.
Proof. unfold Buffer_equals. by rewrite bool_decide_eq_true. Qed.

Lemma Buffer_equals_false (a b : Buffer) : Buffer_equals a b = false <-> a <> b.
Proof. unfold Buffer_equals. by rewrite bool_decide_eq_false. Qed.

(** C9. getRoot returns 32 zero bytes for a tree without leaves, the sole
    leaf of a one-leaf tree, and the most recently added leaf of any larger
    tree: no other leaf has any influence on it. *)
Theorem getRoot_cases :
  (getRoot newTree = Buffer_alloc 32
   /\ length (getRoot newTree) = 32%nat
   /\ Forall (fun b => b = x00) (getRoot newTree))
  /\ (forall (t : SimpleMerkleTree) (leaf : Buffer),
         leaves t = [leaf] -> getRoot t = leaf)
  /\ (forall (t : SimpleMerkleTree) (leaf : Buffer),
         (2 <= length (leaves t))%nat -> last (leaves t) = Some leaf ->
         getRoot t = leaf)
  /\ (forall (t : SimpleMerkleTree) (leaf : Buffer),
         getRoot (addLeaf t leaf) = leaf)
  /\ (forall (t t' : SimpleMerkleTree) (leaf : Buffer),
         getRoot (addLeaf t leaf) = getRoot (addLeaf t' leaf)).
Proof.
  repeat apply conj.
  - reflexivity.
  - reflexivity.
  - cbn. repeat constructor.
  - intros t leaf E. unfold getRoot, leafAt. by rewrite E.
  - intros t leaf Hlen Hlast.
    assert (Hne : leaves t <> []) by (destruct (leaves t); simpl in *; [lia|done]).
    apply getRoot_last in Hne. congruence.
  - apply getRoot_addLeaf.
  - intros t t' leaf. by rewrite !getRoot_addLeaf.
Qed.

Lemma getRoot_cases_witness :
  getRoot (mkTree [Sample.leafOf 1]) = Sample.leafOf 1
  /\ getRoot Sample.twoVoters = Sample.leafOf 2.
Proof.
  split.
  - apply (proj1 (proj2 getRoot_cases) (mkTree [Sample.leafOf 1])). reflexivity.
  - apply (proj1 (proj2 (proj2 getRoot_cases)) Sample.twoVoters).
    + simpl. lia.
    + reflexivity.
Defined.

(** C10. getProof returns the empty array for every leaf index and every
    tree: no sibling hash is ever produced. *)
Theorem getProof_empty (t : SimpleMerkleTree) (leafIndex : Z) :
  getProof t leafIndex = [] /\ length (getProof t leafIndex) = 0%nat.
Proof. split; reflexivity. Qed.

(** C1, the claim as stated fails: in the tree holding the leaves of two
    voters, the first voter's leaf with the proof and root the tree produces
    does not verify. *)
Lemma first_of_two_leaves_rejected :
  getLeaves Sample.twoVoters !! 0%nat = Some (Sample.leafOf 1)
  /\ verifyProof (Sample.leafOf 1) (getProof Sample.twoVoters 0) 0
       (getRoot Sample.twoVoters) = false.
Proof. split; vm_compute; reflexivity. Qed.

(** C1, as the code has it: the proof the tree produces verifies the leaf
    at index i against the root the tree produced when that leaf was added;
    against the root after all additions it verifies exactly when the leaf
    has the bytes of the leaf added last, so the last index always
    verifies, and every index of a one-leaf tree does. *)
Theorem verifyProof_of_tree (ls : list Buffer) (i : nat) (leaf : Buffer) :
  ls !! i = Some leaf ->
  verifyProof leaf (getProof (Spec.treeOf (take (S i) ls)) (Z.of_nat i))
    (Z.of_nat i) (getRoot (Spec.treeOf (take (S i) ls))) = true
  /\ (verifyProof leaf (getProof (Spec.treeOf ls) (Z.of_nat i)) (Z.of_nat i)
        (getRoot (Spec.treeOf ls)) = true
      <-> last ls = Some leaf)
  /\ (S i = length ls ->
      verifyProof leaf (getProof (Spec.treeOf ls) (Z.of_nat i)) (Z.of_nat i)
        (getRoot (Spec.treeOf ls)) = true).
Proof.
  intros Hi.
  assert (Hne : leaves (Spec.treeOf ls) <> []).
  { rewrite leaves_treeOf. by destruct ls. }
  apply getRoot_last in Hne. rewrite leaves_treeOf in Hne.
  assert (Hiff : verifyProof leaf (getProof (Spec.treeOf ls) (Z.of_nat i))
                   (Z.of_nat i) (getRoot (Spec.treeOf ls)) = true
                 <-> last ls = Some leaf).
  { unfold verifyProof, getProof. cbn [length Nat.eqb].
    rewrite Buffer_equals_true, Hne. split; congruence. }
  split; [|split; [exact Hiff|]].
  - rewrite (take_S_r ls i leaf Hi).
    unfold Spec.treeOf. rewrite fold_left_app. cbn [fold_left].
    rewrite getRoot_addLeaf.
    unfold verifyProof, getProof. cbn [length Nat.eqb].
    by apply Buffer_equals_true.
  - intros Hlast. apply Hiff.
    rewrite last_lookup, <- Hlast. exact Hi.
Qed.

Lemma verifyProof_of_tree_witness :
  verifyProof (Sample.leafOf 1)
    (getProof (Spec.treeOf (take 1 [Sample.leafOf 1; Sample.leafOf 2])) (Z.of_nat 0))
    (Z.of_nat 0)
    (getRoot (Spec.treeOf (take 1 [Sample.leafOf 1; Sample.leafOf 2]))) = true
  /\ (verifyProof (Sample.leafOf 1)
        (getProof (Spec.treeOf [Sample.leafOf 1; Sample.leafOf 2]) (Z.of_nat 0))
        (Z.of_nat 0) (getRoot (Spec.treeOf [Sample.leafOf 1; Sample.leafOf 2])) = true
      <-> last [Sample.leafOf 1; Sample.leafOf 2] = Some (Sample.leafOf 1))
  /\ (1%nat = length [Sample.leafOf 1; Sample.leafOf 2] ->
      verifyProof (Sample.leafOf 1)
        (getProof (Spec.treeOf [Sample.leafOf 1; Sample.leafOf 2]) (Z.of_nat 0))
        (Z.of_nat 0) (getRoot (Spec.treeOf [Sample.leafOf 1; Sample.leafOf 2])) = true).
Proof.
  apply (verifyProof_of_tree [Sample.leafOf 1; Sample.leafOf 2] 0 (Sample.leafOf 1)).
  reflexivity.
Defined.

(** The last of the two leaves does verify against the final root. *)
Example last_of_two_leaves_accepted :
  verifyProof (Sample.leafOf 2) (getProof Sample.twoVoters 1) 1
    (getRoot Sample.twoVoters) = true.
Proof. vm_compute. reflexivity. Qed.

(** ** The left/right choice of verifyProof *)

Lemma ToInt32_range (x : Z) : (- 2^31 <= JS.ToInt32 x < 2^31)%Z.
Proof.
  unfold JS.ToInt32.
  pose proof (Z.mod_pos_bound (x + 2^31) (2^32)). lia.
Qed.

Lemma ToInt32_small (x : Z) : (- 2^31 <= x < 2^31)%Z -> JS.ToInt32 x = x.
Proof. intros H. unfold JS.ToInt32. rewrite Z.mod_small; lia. Qed.

Lemma ToInt32_mod (x : Z) : (JS.ToInt32 x mod 2^32 = x mod 2^32)%Z.
Proof.
  unfold JS.ToInt32.
  rewrite Zminus_mod_idemp_l.
  f_equal. lia.
Qed.

Lemma ToInt32_testbit (x i : Z) :
  (0 <= i < 32)%Z -> Z.testbit (JS.ToInt32 x) i = Z.testbit x i.
Proof.
  intros Hi.
  rewrite <- (Z.mod_pow2_bits_low (JS.ToInt32 x) 32 i) by lia.
  rewrite <- (Z.mod_pow2_bits_low x 32 i) by lia.
  by rewrite ToInt32_mod.
Qed.

Lemma land_pow2_is_zero (y k : Z) :
  (0 <= k)%Z -> (Z.land y (2^k) =? 0)%Z = negb (Z.testbit y k).
Proof.
  intros Hk.
  assert (H : Z.land y (2^k) = if Z.testbit y k then (2^k)%Z else 0%Z).
  { apply Z.bits_inj'. intros j Hj.
    rewrite Z.land_spec, Z.pow2_bits_eqb by lia.
    destruct (Z.eqb_spec k j) as [->|Hne].
    - destruct (Z.testbit y j) eqn:E; [|by rewrite Z.bits_0].
      rewrite Z.pow2_bits_true by lia. reflexivity.
    - rewrite andb_false_r.
      destruct (Z.testbit y k); [|by rewrite Z.bits_0].
      rewrite Z.pow2_bits_false by lia. reflexivity. }
  rewrite H. destruct (Z.testbit y k); [|reflexivity].
  simpl. apply Z.eqb_neq. pose proof (Z.pow_pos_nonneg 2 k). lia.
Qed.

Lemma land_sign_is_zero (y : Z) :
  (- 2^31 <= y < 2^31)%Z ->
  (Z.land y (- 2^31) =? 0)%Z = negb (Z.testbit y 31).
Proof.
  intros Hy.
  assert (Hl : Z.land y (- 2^31) = (2^31 * (y / 2^31))%Z).
  { change (- 2^31)%Z with (Z.lnot (Z.ones 31)).
    change (Z.land y (Z.lnot (Z.ones 31))) with (Z.ldiff y (Z.ones 31)).
    rewrite Z.ldiff_ones_r by lia.
    rewrite Z.shiftl_mul_pow2, Z.shiftr_div_pow2 by lia. lia. }
  rewrite Hl, Z.testbit_odd, Z.shiftr_div_pow2 by lia.
  destruct (Z.lt_ge_cases y 0) as [Hneg|Hpos].
  - assert (y / 2^31 = -1)%Z as ->.
    { symmetry. apply (Z.div_unique y (2^31) (-1) (y + 2^31)); lia. }
    reflexivity.
  - rewrite Z.div_small by lia. reflexivity.
Qed.

Lemma shl_one (i : nat) :
  JS.shl 1 (Z.of_nat i) = JS.ToInt32 (2 ^ Z.of_nat (i mod 32)).
Proof.
  unfold JS.shl. rewrite (ToInt32_small 1) by lia.
  change 31%Z with (Z.ones 5). rewrite Z.land_ones by lia.
  rewrite Z.mod_mod_divide by (by exists (2^27)%Z).
  change (2^5)%Z with (Z.of_nat 32).
  rewrite <- Nat2Z.inj_mod.
  rewrite Z.shiftl_mul_pow2 by lia. f_equal. lia.
Qed.

(** In JavaScript the shift count wraps at 32, so level [i] looks at bit
    [i mod 32] of the leaf index. *)
Lemma isLeftNode_bit (leafIndex : Z) (i : nat) :
  isLeftNode leafIndex i = negb (Z.testbit leafIndex (Z.of_nat (i mod 32))).
Proof.
  unfold isLeftNode, JS.and. rewrite shl_one.
  pose proof (Nat.mod_upper_bound i 32 ltac:(lia)) as Hk.
  set (k := (i mod 32)%nat) in *.
  rewrite <- (ToInt32_testbit leafIndex (Z.of_nat k)) by lia.
  pose proof (ToInt32_range leafIndex) as Hy.
  set (y := JS.ToInt32 leafIndex) in *.
  destruct (Nat.eq_dec k 31) as [->|Hne].
  - change (JS.ToInt32 (JS.ToInt32 (2 ^ Z.of_nat 31))) with (- 2^31)%Z.
    by apply land_sign_is_zero.
  - assert (Hp : (0 < 2 ^ Z.of_nat k < 2^31)%Z).
    { split; [apply Z.pow_pos_nonneg; lia|].
      apply Z.pow_lt_mono_r; lia. }
    do 2 rewrite (ToInt32_small (2 ^ Z.of_nat k)) by lia.
    apply land_pow2_is_zero. lia.
Qed.

Lemma isLeftNode_low (leafIndex : Z) (i : nat) :
  (i < 32)%nat -> isLeftNode leafIndex i = negb (Z.testbit leafIndex (Z.of_nat i)).
Proof. intros Hi. rewrite isLeftNode_bit. by rewrite Nat.mod_small. Qed.

Lemma verifyLoop_reconstruct (proof : list Buffer) (i : nat) (leafIndex : Z)
    (cur : Buffer) :
  (i + length proof <= 32)%nat ->
  verifyLoop proof i leafIndex cur = Spec.reconstruct proof i leafIndex cur.
Proof.
  revert i cur. induction proof as [|sib rest IH]; intros i cur Hlen; [reflexivity|].
  simpl in Hlen. cbn [verifyLoop Spec.reconstruct].
  rewrite isLeftNode_low by lia.
  unfold keccak_256, Buffer_concat. cbn [List.concat].
  rewrite !Buffer_from_hex_of_bytes, !app_nil_r.
  rewrite IH by lia.
  by destruct (Z.testbit leafIndex (Z.of_nat i)).
Qed.

Lemma verifyProof_loop (leaf : Buffer) (proof : list Buffer) (leafIndex : Z)
    (root : Buffer) :
  verifyProof leaf proof leafIndex root
  = Buffer_equals (verifyLoop proof 0 leafIndex leaf) root.
Proof. unfold verifyProof. by destruct proof. Qed.

(** On proofs of at most 32 siblings verifyProof is the specification's
    verifyMembership, true exactly when the root rebuilt with bit i of the
    leaf index at level i is the given root; with no sibling at all it is
    true exactly when the leaf is the root. *)
Theorem verifyProof_is_verifyMembership (leaf : Buffer) (proof : list Buffer)
    (leafIndex : Z) (root : Buffer) :
  (length proof <= 32)%nat ->
  verifyProof leaf proof leafIndex root
    = Spec.verifyMembership leaf proof leafIndex root
  /\ (verifyProof leaf proof leafIndex root = true
      <-> Spec.reconstruct proof 0 leafIndex leaf = root)
  /\ (verifyProof leaf [] leafIndex root = true <-> leaf = root).
Proof.
  intros Hlen.
  assert (E : verifyProof leaf proof leafIndex root
              = Spec.verifyMembership leaf proof leafIndex root).
  { rewrite verifyProof_loop, verifyLoop_reconstruct by (simpl; lia).
    reflexivity. }
  split; [|split].
  - exact E.
  - rewrite E. unfold Spec.verifyMembership. apply bool_decide_eq_true.
  - unfold verifyProof. cbn [length Nat.eqb]. apply Buffer_equals_true.
Qed.

Lemma verifyProof_is_verifyMembership_witness :
  verifyProof (Sample.leafOf 1) [Sample.leafOf 2; Sample.leafOf 3] 2
    (Sample.leafOf 4)
    = Spec.verifyMembership (Sample.leafOf 1) [Sample.leafOf 2; Sample.leafOf 3] 2
        (Sample.leafOf 4)
  /\ (verifyProof (Sample.leafOf 1) [Sample.leafOf 2; Sample.leafOf 3] 2
        (Sample.leafOf 4) = true
      <-> Spec.reconstruct [Sample.leafOf 2; Sample.leafOf 3] 0 2 (Sample.leafOf 1)
          = Sample.leafOf 4)
  /\ (verifyProof (Sample.leafOf 1) [] 2 (Sample.leafOf 4) = true
      <-> Sample.leafOf 1 = Sample.leafOf 4).
Proof.
  apply (verifyProof_is_verifyMembership (Sample.leafOf 1)
           [Sample.leafOf 2; Sample.leafOf 3] 2 (Sample.leafOf 4)).
  simpl. lia.
Defined.

(** C2 at level 32: with 33 siblings and leaf index 1, bit 32 of the index
    is clear, so the specification hashes current || sibling at the last
    level and accepts the root rebuilt that way; the code's [1 << 32] is 1,
    it reads bit 0 instead, hashes sibling || current and rejects that
    root. *)
Theorem verifyProof_level32_reads_bit0 :
  length Sample.deepProof = 33%nat
  /\ Z.testbit 1 32 = false
  /\ isLeftNode 1 32 = false
  /\ Spec.verifyMembership (Buffer_alloc 32) Sample.deepProof 1
       (Spec.reconstruct Sample.deepProof 0 1 (Buffer_alloc 32)) = true
  /\ verifyProof (Buffer_alloc 32) Sample.deepProof 1
       (Spec.reconstruct Sample.deepProof 0 1 (Buffer_alloc 32)) = false.
Proof.
  split; [reflexivity|]. split; [reflexivity|]. split; [reflexivity|]. split.
  - apply bool_decide_eq_true. reflexivity.
  - vm_compute. reflexivity.
Qed.

(** ** Perturbing a byte *)

Lemma byte_changed_neq (a b : Buffer) :
  Spec.byte_changed a b -> a <> b /\ length a = length b.
Proof.
  intros [pre post x y Hxy]. split.
  - intros E. apply app_inv_head in E. congruence.
  - rewrite !length_app. reflexivity.
Qed.

Lemma verifyLoop_cons (sib : Buffer) (rest : list Buffer) (i : nat)
    (leafIndex : Z) (cur : Buffer) :
  verifyLoop (sib :: rest) i leafIndex cur
  = verifyLoop rest (S i) leafIndex
      (if isLeftNode leafIndex i
       then Keccak.digest (cur ++ sib) else Keccak.digest (sib ++ cur)).
Proof.
  cbn [verifyLoop]. unfold keccak_256, Buffer_concat. cbn [List.concat].
  by rewrite !Buffer_from_hex_of_bytes, !app_nil_r.
Qed.

Lemma hashed_cons (sib : Buffer) (rest : list Buffer) (i : nat)
    (leafIndex : Z) (cur : Buffer) :
  Spec.hashed (sib :: rest) i leafIndex cur
  = (if isLeftNode leafIndex i then cur ++ sib else sib ++ cur)
    :: Spec.hashed rest (S i) leafIndex
         (if isLeftNode leafIndex i
          then Keccak.digest (cur ++ sib) else Keccak.digest (sib ++ cur)).
Proof.
  cbn [Spec.hashed]. unfold keccak_256, Buffer_concat. cbn [List.concat].
  rewrite !Buffer_from_hex_of_bytes, !app_nil_r.
  by destruct (isLeftNode leafIndex i).
Qed.





(** With no sibling there is nothing to hash, and the two runs are
    collision-free whatever the leaves are. *)
Lemma collision_free_without_siblings (leafIndex : Z) (leaf leaf' : Buffer) :
  Spec.collision_free leafIndex leaf [] leaf' [].
Proof. constructor. Qed.

(** On the sample tree both perturbations are rejected outright. *)
Example perturbed_sample_rejected :
  verifyProof Sample.plainLeaf [Sample.plainSibling] 0 Sample.plainRoot = true
  /\ verifyProof Sample.changedLeaf [Sample.plainSibling] 0 Sample.plainRoot = false
  /\ verifyProof Sample.plainLeaf [Sample.changedSibling] 0 Sample.plainRoot = false.
Proof. vm_compute. repeat split. Qed.

(** With no sibling the perturbed leaf is rejected without any appeal to
    the hash. *)
Lemma changed_leaf_rejected_without_siblings (leaf leaf' root : Buffer)
    (leafIndex : Z) :
  verifyProof leaf [] leafIndex root = true ->
  Spec.byte_changed leaf leaf' ->
  verifyProof leaf' [] leafIndex root = false.
Proof.
  unfold verifyProof. cbn [length Nat.eqb]. intros Hok Hc.
  apply Buffer_equals_true in Hok. apply Buffer_equals_false.
  apply byte_changed_neq in Hc as [Hne _]. congruence.
Qed.

(** ** The ledger: tallies *)

Module LedgerFacts.
Import Ledger.

Lemma sum_counts_zeros (n : nat) : sum_counts (repeat 0%N n) = 0%N.
Proof. induction n as [|n IH]; simpl; [done|]. by rewrite IH. Qed.

Lemma sum_counts_alter (counts : list N) (i : nat) (x : N) :
  counts !! i = Some x ->
  sum_counts (alter N.succ i counts) = N.succ (sum_counts counts).
Proof.
  unfold sum_counts.
  revert i. induction counts as [|a r IH]; intros i Hi; [done|].
  destruct i as [|i]; simpl in *.
  - injection Hi as ->. lia.
  - specialize (IH i Hi).
    change (alter N.succ i r) with (list_alter N.succ i r) in IH.
    rewrite IH. lia.
Qed.

Lemma create_Ok (ref caller : PublicKey) (now : Z) (cands : list string)
    (start finish : Z) (mode : bool) (cap : N) (c : Context) :
  create ref caller now cands start finish mode cap = Ok c ->
  (1 <= length cands <= MAX_CANDIDATES)%nat
  /\ (start < finish)%Z
  /\ candidates (election c) = cands
  /\ vote_counts (election c) = repeat 0%N (length cands)
  /\ total_votes (election c) = 0%N
  /\ registry c = ∅.
Proof.
  unfold create. intros H.
  destruct (negb _) eqn:E1; [discriminate|].
  destruct (_ || _) eqn:E2; [discriminate|].
  injection H as <-.
  apply negb_false_iff in E1. apply andb_prop in E1 as [E1 _].
  apply andb_prop in E1 as [Ea Eb].
  apply Nat.leb_le in Ea. apply Nat.leb_le in Eb.
  apply orb_false_elim in E2 as [E2 _].
  apply negb_false_iff, Z.ltb_lt in E2.
  simpl. repeat apply conj; (lia || reflexivity).
Qed.

(** A successful castVote, taken apart. *)
Lemma castVote_Ok (c c' : Context) (now : Z) (v : VoteEntry) :
  castVote c now v = Ok c' ->
  current_status (election c) now = Active
  /\ (0 <= v_choice v < Z.of_nat (length (candidates (election c))))%Z
  /\ check_evidence c (v_wallet v) (v_evidence v) = Ok tt
  /\ (nullifier_of (v_wallet v) (election_ref (election c)) 0 ∉ registry c)
  /\ (total_votes (election c) < COUNTER_MAX)%N
  /\ c' = mkContext
            (set_tally (election c)
               (alter N.succ (Z.to_nat (v_choice v)) (vote_counts (election c)))
               (N.succ (total_votes (election c))))
            (acc_leaves c) (guard c) (records c)
            ({[ nullifier_of (v_wallet v) (election_ref (election c)) 0 ]}
               ∪ registry c).
Proof.
  unfold castVote. intros H.
  destruct (current_status (election c) now) eqn:Est; try discriminate.
  destruct (negb _) eqn:Ech; [discriminate|].
  destruct (check_evidence c (v_wallet v) (v_evidence v)) as [[]|] eqn:Eev;
    [|discriminate].
  destruct (isUsed c _) eqn:Eused; [discriminate|].
  destruct (_ || _) eqn:Eov; [discriminate|].
  injection H as <-.
  apply negb_false_iff, andb_prop in Ech as [Ea Eb].
  apply Z.leb_le in Ea. apply Z.ltb_lt in Eb.
  apply bool_decide_eq_false in Eused.
  apply orb_false_elim in Eov as [_ Eov]. apply N.leb_gt in Eov.
  repeat apply conj; (done || lia).
Qed.

Lemma castVote_tally_ok (c c' : Context) (now : Z) (v : VoteEntry) :
  tally_ok c -> castVote c now v = Ok c' -> tally_ok c'.
Proof.
  intros [Hlen Hsum] H.
  apply castVote_Ok in H as (_ & Hch & _ & _ & _ & ->).
  unfold tally_ok. simpl. rewrite length_alter. split; [done|].
  destruct (lookup_lt_is_Some_2 (vote_counts (election c))
              (Z.to_nat (v_choice v))) as [x Hx]; [lia|].
  rewrite (sum_counts_alter _ _ x Hx). by rewrite Hsum.
Qed.

Lemma process_tally_ok (entries : list VoteEntry) (c c' : Context) (now : Z) :
  tally_ok c -> process c now entries = Ok c' -> tally_ok c'.
Proof.
  revert c. induction entries as [|v rest IH]; intros c Hc H; simpl in H.
  - by injection H as <-.
  - destruct (castVote c now v) as [w|] eqn:E; [|discriminate].
    eapply IH; [|exact H]. by eapply castVote_tally_ok.
Qed.

Lemma register_tally (c c' : Context) (now : Z) (w : PublicKey)
    (att : Attestation) (r : N * Buffer) :
  register c now w att = Ok (c', r) ->
  vote_counts (election c') = vote_counts (election c)
  /\ total_votes (election c') = total_votes (election c)
  /\ candidates (election c') = candidates (election c)
  /\ registry c' = registry c.
Proof.
  unfold register. intros H.
  repeat (match type of H with
          | (if ?b then _ else _) = Ok _ =>
              match b with
              | compression _ => fail 1
              | _ => destruct b; [discriminate|]
              end
          end).
  destruct (compression (election c)); injection H as <- _; by simpl.
Qed.

Lemma close_tally (c c' : Context) (caller : PublicKey) :
  close c caller = Ok c' ->
  vote_counts (election c') = vote_counts (election c)
  /\ total_votes (election c') = total_votes (election c)
  /\ candidates (election c') = candidates (election c)
  /\ registry c' = registry c
  /\ status (election c') = Ended.
Proof.
  unfold close. intros H.
  destruct (negb _); [discriminate|].
  destruct (status (election c)); try discriminate; by injection H as <-.
Qed.

Lemma step_tally_ok (c : Context) (now : Z) (op : Operation) :
  tally_ok c -> tally_ok (step c now op).
Proof.
  intros Hc. destruct op as [w att|v|entries|caller]; simpl.
  - destruct (register c now w att) as [[c' r]|] eqn:E; simpl; [|done].
    apply register_tally in E as (E1 & E2 & E3 & _).
    unfold tally_ok. by rewrite E1, E2, E3.
  - destruct (castVote c now v) eqn:E; simpl; [|done].
    by eapply castVote_tally_ok.
  - unfold castBatch. destruct (process c now entries) eqn:E; simpl; [|done].
    by eapply process_tally_ok.
  - destruct (close c caller) as [c'|] eqn:E; simpl; [|done].
    apply close_tally in E as (E1 & E2 & E3 & _).
    unfold tally_ok. by rewrite E1, E2, E3.
Qed.

Lemma reachable_tally_ok (c : Context) : reachable c -> tally_ok c.
Proof.
  induction 1 as [ref caller now cands start finish mode cap c Hc | c now op _ IH].
  - apply create_Ok in Hc as (_ & _ & E1 & E2 & E3 & _).
    unfold tally_ok. rewrite E1, E2, E3, repeat_length.
    split; [done|apply sum_counts_zeros].
  - by apply step_tally_ok.
Qed.

(** C4. In every context reachable from a successful create by any
    sequence of register, castVote, castBatch and close, the per-candidate
    counters add up to total_votes; and a successful castVote in such a
    context raises total_votes by one and exactly one counter, the chosen
    candidate's, by one, leaving every other counter as it was. *)
Theorem tally_matches_total :
  (forall c : Context,
      reachable c ->
      sum_counts (vote_counts (election c)) = total_votes (election c))
  /\
  (forall (c c' : Context) (now : Z) (v : VoteEntry),
      reachable c ->
      castVote c now v = Ok c' ->
      total_votes (election c') = (total_votes (election c) + 1)%N
      /\ exists (i : nat) (x : N),
           Z.of_nat i = v_choice v
           /\ vote_counts (election c) !! i = Some x
           /\ vote_counts (election c') !! i = Some (x + 1)%N
           /\ length (vote_counts (election c'))
              = length (vote_counts (election c))
           /\ forall j : nat, j <> i ->
                vote_counts (election c') !! j = vote_counts (election c) !! j).
Proof.
  split.
  - intros c Hc. by apply reachable_tally_ok.
  - intros c c' now v Hc H.
    apply reachable_tally_ok in Hc as [Hlen _].
    apply castVote_Ok in H as (_ & Hch & _ & _ & _ & ->). simpl.
    split; [lia|].
    destruct (lookup_lt_is_Some_2 (vote_counts (election c))
                (Z.to_nat (v_choice v))) as [x Hx]; [lia|].
    exists (Z.to_nat (v_choice v)), x. repeat apply conj.
    + lia.
    + exact Hx.
    + rewrite list_lookup_alter, Hx. simpl.
      destruct (decide _); [|done]. f_equal. lia.
    + apply length_alter.
    + intros j Hj. by apply list_lookup_alter_ne.
Qed.

Lemma run_reachable (ops : list (Z * Operation)) (c : Context) :
  reachable c -> reachable (run c ops).
Proof.
  revert c. induction ops as [|[now op] ops IH]; intros c Hc; [exact Hc|].
  apply IH. by apply reachable_step.
Qed.

Lemma legacyFresh_created :
  create (mkPublicKey 100) Scenario.authorityKey Scenario.t0
    ["Alice"; "Bob"; "Charlie"]%string Scenario.t0 (Scenario.t0 + 86400)
    false 1000
  = Ok Scenario.legacyFresh.
Proof. reflexivity. Qed.

Lemma legacyRegistered_reachable : reachable Scenario.legacyRegistered.
Proof.
  apply run_reachable. eapply reachable_create. exact legacyFresh_created.
Qed.

Lemma tally_matches_total_witness :
  sum_counts (vote_counts (election Scenario.scenarioA))
  = total_votes (election Scenario.scenarioA)
  /\ total_votes
       (election (step Scenario.legacyRegistered (Scenario.t0 + 1)
                    (OpCastVote (Scenario.directVote 1 0))))
     = (total_votes (election Scenario.legacyRegistered) + 1)%N.
Proof.
  split.
  - apply (proj1 tally_matches_total Scenario.scenarioA).
    apply run_reachable. exact legacyRegistered_reachable.
  - apply (proj2 tally_matches_total Scenario.legacyRegistered
             (step Scenario.legacyRegistered (Scenario.t0 + 1)
                (OpCastVote (Scenario.directVote 1 0)))
             (Scenario.t0 + 1)%Z (Scenario.directVote 1 0)).
    + exact legacyRegistered_reachable.
    + vm_compute. reflexivity.
Defined.

(** Scenario A: three wallets vote 0, 1 and 2. *)
Example scenarioA_counts :
  vote_counts (election Scenario.scenarioA) = [1; 1; 1]%N
  /\ total_votes (election Scenario.scenarioA) = 3%N.
Proof. vm_compute. split; reflexivity. Qed.

(** Scenario B: the same wallet voting twice. *)
Example scenarioB_second_vote :
  castVote Scenario.spent (Scenario.t0 + 2) (Scenario.directVote 4 1)
  = Err AlreadyVoted.
Proof. vm_compute. reflexivity. Qed.

(** ** The ledger: batches *)

Lemma process_app (before after : list VoteEntry) (c : Context) (now : Z) :
  process c now (before ++ after)
  = match process c now before with
    | Ok work => process work now after
    | Err e => Err e
    end.
Proof.
  revert c. induction before as [|v rest IH]; intros c; simpl; [done|].
  destruct (castVote c now v); [apply IH|done].
Qed.

(** A rejected batch stopped at some entry: the ones before it went through
    on the working copy and this one failed there. *)
Lemma castBatch_Err_first_failure (entries : list VoteEntry) (c : Context)
    (now : Z) (e : Error) :
  castBatch c now entries = Err e ->
  exists (before after : list VoteEntry) (bad : VoteEntry) (work : Context),
    entries = before ++ bad :: after
    /\ process c now before = Ok work
    /\ castVote work now bad = Err e.
Proof.
  unfold castBatch. revert c.
  induction entries as [|v rest IH]; intros c H; simpl in H; [discriminate|].
  destruct (castVote c now v) as [w|e'] eqn:E.
  - destruct (IH w H) as (before & after & bad & work & -> & Hp & Hb).
    exists (v :: before), after, bad, work. simpl. by rewrite E.
  - injection H as ->. by exists [], rest, v, c.
Qed.

Lemma grows_refl (c : Context) : grows c c.
Proof.
  unfold grows. repeat apply conj; try done.
  by destruct (election c).
Qed.

Lemma nth_alter_succ_le (counts : list N) (i j : nat) :
  (nth i counts 0 <= nth i (alter N.succ j counts) 0)%N.
Proof.
  rewrite !nth_lookup, list_lookup_alter.
  destruct (decide (j = i)) as [->|]; [|reflexivity].
  destruct (counts !! i); simpl; lia.
Qed.

Lemma castVote_grows (c c' : Context) (now : Z) (v : VoteEntry) :
  castVote c now v = Ok c' -> grows c c'.
Proof.
  intros H. apply castVote_Ok in H as (_ & _ & _ & _ & _ & ->).
  unfold grows. simpl. repeat apply conj; try done.
  - by destruct (election c).
  - set_solver.
  - lia.
  - intros i. apply nth_alter_succ_le.
Qed.

Lemma grows_trans (a b c : Context) : grows a b -> grows b c -> grows a c.
Proof.
  intros (E1 & A1 & G1 & R1 & S1 & T1 & N1) (E2 & A2 & G2 & R2 & S2 & T2 & N2).
  unfold grows. repeat apply conj.
  - rewrite <- E1, <- E2. reflexivity.
  - congruence.
  - congruence.
  - congruence.
  - by etrans.
  - lia.
  - intros i. specialize (N1 i). specialize (N2 i). lia.
Qed.

Lemma process_grows (entries : list VoteEntry) (c work : Context) (now : Z) :
  process c now entries = Ok work -> grows c work.
Proof.
  revert c. induction entries as [|v rest IH]; intros c H; simpl in H.
  - injection H as <-. apply grows_refl.
  - destruct (castVote c now v) as [w|] eqn:E; [|discriminate].
    eapply grows_trans; [by eapply castVote_grows|by apply IH].
Qed.

(** An entry that fails against the context before the batch fails against
    every working copy the batch can reach. *)
Lemma castVote_Err_grows (c w : Context) (now : Z) (v : VoteEntry) (e : Error) :
  grows c w -> castVote c now v = Err e ->
  exists e' : Error, castVote w now v = Err e'.
Proof.
  intros (E & _ & _ & R & S & T & Nn) H.
  assert (Est : current_status (election w) now = current_status (election c) now).
  { unfold current_status. rewrite <- E. reflexivity. }
  assert (Ecand : candidates (election w) = candidates (election c))
    by (rewrite <- E; reflexivity).
  assert (Eref : election_ref (election w) = election_ref (election c))
    by (rewrite <- E; reflexivity).
  assert (Eev : check_evidence w (v_wallet v) (v_evidence v)
                = check_evidence c (v_wallet v) (v_evidence v)).
  { unfold check_evidence. rewrite R. rewrite <- E. reflexivity. }
  unfold castVote in *. rewrite Est, Ecand, Eev, Eref.
  destruct (current_status (election c) now); eauto.
  destruct (negb _); eauto.
  destruct (check_evidence c (v_wallet v) (v_evidence v)); eauto.
  unfold isUsed in *.
  destruct (bool_decide_reflect
              (nullifier_of (v_wallet v) (election_ref (election c)) 0 ∈ registry c))
    as [Hin|Hout].
  - rewrite bool_decide_eq_true_2 by set_solver. eauto.
  - destruct (bool_decide _); eauto.
    destruct (_ || _) eqn:Eov in H; [|discriminate].
    assert (Eov' :
      (COUNTER_MAX <=? nth (Z.to_nat (v_choice v)) (vote_counts (election w)) 0)%N
      || (COUNTER_MAX <=? total_votes (election w))%N = true).
    { apply orb_true_iff. apply orb_true_iff in Eov as [Eov|Eov];
        apply N.leb_le in Eov; [left|right]; apply N.leb_le.
      - specialize (Nn (Z.to_nat (v_choice v))). lia.
      - lia. }
    rewrite Eov'. eauto.
Qed.

(** C5. castBatch is all-or-nothing. With the entries processed in order,
    the first entry that fails its per-vote preconditions (those before it
    having gone through) has the batch rejected with its error, and the
    context the transaction leaves behind is the one before the batch:
    vote_counts, total_votes and the nullifier set are untouched, whatever
    the other entries were. And an entry anywhere in the batch that fails
    against the context before the batch is enough for the batch to be
    rejected and nothing to be committed. *)
Theorem castBatch_all_or_nothing :
  (forall (c work : Context) (now : Z) (before after : list VoteEntry)
          (bad : VoteEntry) (e : Error),
      process c now before = Ok work ->
      castVote work now bad = Err e ->
      castBatch c now (before ++ bad :: after) = Err e
      /\ step c now (OpCastBatch (before ++ bad :: after)) = c
      /\ vote_counts (election (step c now (OpCastBatch (before ++ bad :: after))))
         = vote_counts (election c)
      /\ total_votes (election (step c now (OpCastBatch (before ++ bad :: after))))
         = total_votes (election c)
      /\ registry (step c now (OpCastBatch (before ++ bad :: after))) = registry c)
  /\
  (forall (c : Context) (now : Z) (entries : list VoteEntry) (bad : VoteEntry)
          (e : Error),
      bad ∈ entries ->
      castVote c now bad = Err e ->
      (exists e' : Error, castBatch c now entries = Err e')
      /\ step c now (OpCastBatch entries) = c).
Proof.
  split.
  - intros c work now before after bad e Hp Hb.
    assert (E : castBatch c now (before ++ bad :: after) = Err e).
    { unfold castBatch. rewrite process_app, Hp. simpl. by rewrite Hb. }
    assert (S : step c now (OpCastBatch (before ++ bad :: after)) = c).
    { simpl. by rewrite E. }
    rewrite S. by repeat apply conj.
  - intros c now entries bad e Hin Hb.
    apply list_elem_of_split in Hin as (before & after & ->).
    assert (E : exists e', castBatch c now (before ++ bad :: after) = Err e').
    { unfold castBatch. rewrite process_app.
      destruct (process c now before) as [work|e0] eqn:Hp; [|by eauto].
      apply process_grows in Hp.
      destruct (castVote_Err_grows c work now bad e Hp Hb) as [e' He'].
      exists e'. simpl. by rewrite He'. }
    split; [exact E|]. destruct E as [e' E]. simpl. by rewrite E.
Qed.

(** Scenario D: three valid entries and one reusing a spent nullifier. *)
Lemma castBatch_all_or_nothing_witness :
  (castBatch Scenario.spent (Scenario.t0 + 2)
     (Scenario.threeFresh ++ Scenario.directVote 4 1 :: []) = Err AlreadyVoted
   /\ step Scenario.spent (Scenario.t0 + 2)
        (OpCastBatch (Scenario.threeFresh ++ Scenario.directVote 4 1 :: []))
      = Scenario.spent
   /\ vote_counts (election (step Scenario.spent (Scenario.t0 + 2)
        (OpCastBatch (Scenario.threeFresh ++ Scenario.directVote 4 1 :: []))))
      = vote_counts (election Scenario.spent)
   /\ total_votes (election (step Scenario.spent (Scenario.t0 + 2)
        (OpCastBatch (Scenario.threeFresh ++ Scenario.directVote 4 1 :: []))))
      = total_votes (election Scenario.spent)
   /\ registry (step Scenario.spent (Scenario.t0 + 2)
        (OpCastBatch (Scenario.threeFresh ++ Scenario.directVote 4 1 :: [])))
      = registry Scenario.spent)
  /\
  ((exists e' : Error,
       castBatch Scenario.spent (Scenario.t0 + 2)
         [Scenario.directVote 4 1; Scenario.directVote 1 0] = Err e')
   /\ step Scenario.spent (Scenario.t0 + 2)
        (OpCastBatch [Scenario.directVote 4 1; Scenario.directVote 1 0])
      = Scenario.spent).
Proof.
  split.
  - apply (proj1 castBatch_all_or_nothing Scenario.spent
             (step Scenario.spent (Scenario.t0 + 2)
                (OpCastBatch Scenario.threeFresh))
             (Scenario.t0 + 2)%Z Scenario.threeFresh [] (Scenario.directVote 4 1)
             AlreadyVoted).
    + vm_compute. reflexivity.
    + vm_compute. reflexivity.
  - apply (proj2 castBatch_all_or_nothing Scenario.spent (Scenario.t0 + 2)%Z
             [Scenario.directVote 4 1; Scenario.directVote 1 0]
             (Scenario.directVote 4 1) AlreadyVoted).
    + apply list_elem_of_here.
    + vm_compute. reflexivity.
Defined.

(** The three fresh votes alone go through, and only then are counted. *)
Example scenarioD_counts :
  vote_counts (election Scenario.spent) = [1; 0; 0]%N
  /\ vote_counts (election (step Scenario.spent (Scenario.t0 + 2)
                             (OpCastBatch Scenario.batchD))) = [1; 0; 0]%N
  /\ vote_counts (election (step Scenario.spent (Scenario.t0 + 2)
                             (OpCastBatch Scenario.threeFresh))) = [2; 1; 1]%N.
Proof. vm_compute. repeat split. Qed.

(** Compression mode: a registered wallet votes with the membership proof
    of its leaf; the same proof with a foreign leaf is turned down. *)
Example compressed_vote :
  vote_counts (election
    (step Scenario.compressedRegistered (Scenario.t0 + 1)
       (OpCastVote (Scenario.provenVote Scenario.compressedRegistered 2 1 1))))
  = [0; 1; 0]%N
  /\ castVote Scenario.compressedRegistered (Scenario.t0 + 1)
       (Scenario.provenVote Scenario.compressedRegistered 3 1 1)
     = Err InvalidMerkleProof.
Proof. vm_compute. split; reflexivity. Qed.

End LedgerFacts.

(* ===================================================================== *)
(** * More properties of the SDK *)
(* ===================================================================== *)

(** X1. addLeaf appends and getLeaves reads back: after any run of addLeaf
    calls the tree holds its old leaves followed by the new ones in call
    order, duplicates kept, each at the index it was given. *)
Theorem getLeaves_after_adds (t : SimpleMerkleTree) (ls : list Buffer) :
  getLeaves (fold_left addLeaf ls t) = getLeaves t ++ ls
  /\ length (getLeaves (fold_left addLeaf ls t))
     = (length (getLeaves t) + length ls)%nat
  /\ (forall (i : nat) (leaf : Buffer),
         ls !! i = Some leaf ->
         getLeaves (fold_left addLeaf ls t) !! (length (getLeaves t) + i)%nat
         = Some leaf).
Proof.
  unfold getLeaves. rewrite leaves_fold_addLeaf.
  split; [done|]. split; [by rewrite length_app|].
  intros i leaf Hi. rewrite lookup_app_r by lia.
  replace (length (leaves t) + i - length (leaves t))%nat with i by lia. done.
Qed.





Lemma toBytes_inj (k k' : PublicKey) :
  Ref.validKey k -> Ref.validKey k' -> toBytes k = toBytes k' -> k = k'.
Proof.
  unfold Ref.validKey, toBytes, be_bytes. intros Hk Hk' E.
  apply (f_equal (@rev byte)) in E. rewrite !rev_involutive in E.
  apply (f_equal le_value) in E.
  rewrite !le_value_le_bytes in E.
  change (256 ^ N.of_nat 32)%N with (2^256)%N in E.
  rewrite !N.mod_small in E by done.
  destruct k, k'. simpl in E. by subst.
Qed.

Lemma int64_bytes_inj (t t' : Z) :
  (- 2^63 <= t < 2^63)%Z -> (- 2^63 <= t' < 2^63)%Z ->
  le_bytes 8 (Z.to_N (t mod 2^64)) = le_bytes 8 (Z.to_N (t' mod 2^64)) ->
  t = t'.
Proof.
  intros Ht Ht' E. apply (f_equal Spec.int64_of_le) in E.
  by rewrite !int64_roundtrip in E.
Qed.

Lemma leafMessage_inj (v e a v' e' a' : PublicKey) (t t' : Z) :
  Ref.validKey v -> Ref.validKey e -> Ref.validKey a ->
  Ref.validKey v' -> Ref.validKey e' -> Ref.validKey a' ->
  (- 2^63 <= t < 2^63)%Z -> (- 2^63 <= t' < 2^63)%Z ->
  Ref.leafMessage v e a t = Ref.leafMessage v' e' a' t' ->
  (v, e, a, t) = (v', e', a', t').
Proof.
  intros Hv He Ha Hv' He' Ha' Ht Ht' E. unfold Ref.leafMessage in E.
  apply app_inj_1 in E as [E1 E]; [|by rewrite !toBytes_length].
  apply app_inj_1 in E as [E2 E]; [|by rewrite !toBytes_length].
  apply app_inj_1 in E as [E3 E]; [|by rewrite !toBytes_length].
  apply toBytes_inj in E1; [|done..]. apply toBytes_inj in E2; [|done..].
  apply toBytes_inj in E3; [|done..]. apply int64_bytes_inj in E; [|done..].
  by subst.
Qed.

Lemma createCompressedVoterLeaf_message (v e a : PublicKey) (t : Z) :
  (- 2^63 <= t < 2^63)%Z ->
  createCompressedVoterLeaf v e a t = Some (Keccak.digest (Ref.leafMessage v e a t)).
Proof.
  intros Ht. unfold createCompressedVoterLeaf.
  rewrite writeBigInt64LE_in_range by done. cbn [mbind option_bind].
  unfold keccak_256. rewrite Buffer_from_hex_of_bytes.
  unfold Buffer_concat, Ref.leafMessage. cbn [List.concat]. by rewrite app_nil_r.
Qed.

(** X4. The 104-byte layout of a leaf is unambiguous: for 32-byte keys and
    64-bit timestamps, two different (voter, election, attestation,
    registeredAt) give two different messages to hash; so two such leaves
    are equal only if the inputs are, unless Keccak-256 collides on these
    two messages. *)
Theorem createCompressedVoterLeaf_binds (v e a v' e' a' : PublicKey) (t t' : Z) :
  Ref.validKey v -> Ref.validKey e -> Ref.validKey a ->
  Ref.validKey v' -> Ref.validKey e' -> Ref.validKey a' ->
  (- 2^63 <= t < 2^63)%Z -> (- 2^63 <= t' < 2^63)%Z ->
  (Ref.leafMessage v e a t = Ref.leafMessage v' e' a' t' ->
   (v, e, a, t) = (v', e', a', t'))
  /\ (Spec.kept_apart (Ref.leafMessage v e a t) (Ref.leafMessage v' e' a' t') ->
      createCompressedVoterLeaf v e a t = createCompressedVoterLeaf v' e' a' t' ->
      (v, e, a, t) = (v', e', a', t')).
Proof.
  intros Hv He Ha Hv' He' Ha' Ht Ht'.
  split; [by apply leafMessage_inj|].
  intros Hk E. rewrite !createCompressedVoterLeaf_message in E by done.
  apply (inj Some) in E. apply Hk in E. by apply leafMessage_inj in E.
Qed.

Lemma nullifierMessage_inj (v e v' e' : PublicKey) (n n' : Z) :
  Ref.validKey v -> Ref.validKey e -> Ref.validKey v' -> Ref.validKey e' ->
  (- 2^63 <= n < 2^63)%Z -> (- 2^63 <= n' < 2^63)%Z ->
  Ref.nullifierMessage v e n = Ref.nullifierMessage v' e' n' ->
  (v, e, n) = (v', e', n').
Proof.
  intros Hv He Hv' He' Hn Hn' E. unfold Ref.nullifierMessage in E.
  apply app_inj_1 in E as [E1 E]; [|by rewrite !toBytes_length].
  apply app_inj_1 in E as [E2 E]; [|by rewrite !toBytes_length].
  apply toBytes_inj in E1; [|done..]. apply toBytes_inj in E2; [|done..].
  apply int64_bytes_inj in E; [|done..]. by subst.
Qed.

Lemma createNullifier_message (v e : PublicKey) (n : Z) :
  (- 2^63 <= n < 2^63)%Z ->
  createNullifier v e (Some n) = Some (Keccak.digest (Ref.nullifierMessage v e n)).
Proof.
  intros Hn. unfold createNullifier. cbn [default from_option id].
  rewrite writeBigInt64LE_in_range by done. cbn [mbind option_bind].
  unfold keccak_256. rewrite Buffer_from_hex_of_bytes.
  unfold Buffer_concat, Ref.nullifierMessage. cbn [List.concat]. by rewrite app_nil_r.
Qed.

(** X5. The 72-byte layout of a nullifier is unambiguous in the same way:
    different (voter, election, nonce) give different messages, and equal
    nullifiers mean equal inputs unless Keccak-256 collides on the two
    messages. *)
Theorem createNullifier_binds (v e v' e' : PublicKey) (n n' : Z) :
  Ref.validKey v -> Ref.validKey e -> Ref.validKey v' -> Ref.validKey e' ->
  (- 2^63 <= n < 2^63)%Z -> (- 2^63 <= n' < 2^63)%Z ->
  (Ref.nullifierMessage v e n = Ref.nullifierMessage v' e' n' -> (v, e, n) = (v', e', n'))
  /\ (Spec.kept_apart (Ref.nullifierMessage v e n) (Ref.nullifierMessage v' e' n') ->
      createNullifier v e (Some n) = createNullifier v' e' (Some n') ->
      (v, e, n) = (v', e', n')).
Proof.
  intros Hv He Hv' He' Hn Hn'.
  split; [by apply nullifierMessage_inj|].
  intros Hk E. rewrite !createNullifier_message in E by done.
  apply (inj Some) in E. apply Hk in E. by apply nullifierMessage_inj in E.
Qed.

(** X6. A nullifier is hashed from 72 bytes and a leaf from 104, so a
    nullifier equals a leaf only if Keccak-256 collides on these two
    messages of different lengths. *)
Theorem nullifier_is_no_leaf (v e v' e' a' : PublicKey) (n t : Z) :
  (- 2^63 <= n < 2^63)%Z -> (- 2^63 <= t < 2^63)%Z ->
  length (Ref.nullifierMessage v e n) = 72%nat
  /\ length (Ref.leafMessage v' e' a' t) = 104%nat
  /\ (Spec.kept_apart (Ref.nullifierMessage v e n) (Ref.leafMessage v' e' a' t) ->
      createNullifier v e (Some n) <> createCompressedVoterLeaf v' e' a' t).
Proof.
  intros Hn Ht.
  assert (H1 : length (Ref.nullifierMessage v e n) = 72%nat).
  { unfold Ref.nullifierMessage. by rewrite !length_app, !toBytes_length, le_bytes_length. }
  assert (H2 : length (Ref.leafMessage v' e' a' t) = 104%nat).
  { unfold Ref.leafMessage. by rewrite !length_app, !toBytes_length, le_bytes_length. }
  split; [done|]. split; [done|].
  intros Hk E.
  rewrite createNullifier_message, createCompressedVoterLeaf_message in E by done.
  apply (inj Some) in E. apply Hk in E. rewrite E in H1. lia.
Qed.

Lemma ToInt32_add_mul (x k : Z) : JS.ToInt32 (x + k * 2^32) = JS.ToInt32 x.
Proof.
  unfold JS.ToInt32.
  replace (x + k * 2^32 + 2^31)%Z with (x + 2^31 + k * 2^32)%Z by lia.
  by rewrite Z.mod_add by lia.
Qed.

Lemma isLeftNode_add_mul (idx k : Z) (i : nat) :
  isLeftNode (idx + k * 2^32) i = isLeftNode idx i.
Proof. unfold isLeftNode, JS.and. by rewrite ToInt32_add_mul. Qed.

Lemma verifyLoop_add_mul (proof : list Buffer) (i : nat) (idx k : Z) (cur : Buffer) :
  verifyLoop proof i (idx + k * 2^32) cur = verifyLoop proof i idx cur.
Proof.
  revert i cur. induction proof as [|s r IH]; intros i cur; [done|].
  rewrite !verifyLoop_cons, isLeftNode_add_mul. apply IH.
Qed.

(** X7. verifyProof looks at leafIndex only modulo 2^32 and at the level
    only modulo 32: an index and the same index plus any multiple of 2^32
    get the same verdict for every leaf, proof and root, and level i + 32
    makes the same left/right choice as level i. *)
Theorem verifyProof_index_wraps (leaf : Buffer) (proof : list Buffer)
    (leafIndex k : Z) (root : Buffer) :
  verifyProof leaf proof (leafIndex + k * 2^32) root
    = verifyProof leaf proof leafIndex root
  /\ verifyProof leaf proof (leafIndex mod 2^32) root
     = verifyProof leaf proof leafIndex root
  /\ forall i : nat, isLeftNode leafIndex (i + 32) = isLeftNode leafIndex i.
Proof.
  split; [|split].
  - by rewrite !verifyProof_loop, verifyLoop_add_mul.
  - rewrite (Z.div_mod leafIndex (2^32)) at 2 by lia.
    rewrite !verifyProof_loop.
    replace (2^32 * (leafIndex / 2^32) + leafIndex mod 2^32)%Z
      with (leafIndex mod 2^32 + (leafIndex / 2^32) * 2^32)%Z by lia.
    by rewrite verifyLoop_add_mul.
  - intros i. rewrite !isLeftNode_bit.
    replace (i + 32)%nat with (i + 1 * 32)%nat by lia.
    by rewrite Nat.Div0.mod_add.
Qed.

Lemma verifyLoop_shift (rest : list Buffer) (i : nat) (idx : Z) (cur : Buffer) :
  (S i + length rest <= 32)%nat ->
  verifyLoop rest (S i) idx cur = verifyLoop rest i (idx / 2) cur.
Proof.
  revert i cur. induction rest as [|s r IH]; intros i cur Hlen; [done|].
  simpl in Hlen. rewrite !verifyLoop_cons, !isLeftNode_low by lia.
  replace (idx / 2)%Z with (Z.shiftr idx 1) by (rewrite Z.shiftr_div_pow2; [done|lia]).
  rewrite Z.shiftr_spec by lia.
  replace (Z.of_nat i + 1)%Z with (Z.of_nat (S i)) by lia.
  replace (Z.shiftr idx 1) with (idx / 2)%Z by (rewrite Z.shiftr_div_pow2; [done|lia]).
  apply IH. lia.
Qed.

(** X8. One level of a proof can be peeled off: with at most 32 siblings,
    verifying a leaf is verifying its parent hash (current || sibling for
    an even index, sibling || current for an odd one) with the remaining
    siblings and the index halved. So every inner node of a path is itself
    accepted as a leaf. *)
Theorem verifyProof_parent (leaf sibling : Buffer) (rest : list Buffer)
    (leafIndex : Z) (root : Buffer) :
  (length rest < 32)%nat ->
  verifyProof leaf (sibling :: rest) leafIndex root
  = verifyProof
      (if Z.testbit leafIndex 0
       then Keccak.digest (sibling ++ leaf) else Keccak.digest (leaf ++ sibling))
      rest (leafIndex / 2) root.
Proof.
  intros Hlen. rewrite !verifyProof_loop, verifyLoop_cons.
  rewrite isLeftNode_low by lia. change (Z.of_nat 0) with 0%Z.
  rewrite verifyLoop_shift by lia.
  by destruct (Z.testbit leafIndex 0).
Qed.

Lemma verifyLoop_length (proof : list Buffer) (i : nat) (idx : Z) (cur : Buffer) :
  proof <> [] -> length (verifyLoop proof i idx cur) = 32%nat.
Proof.
  revert i cur. induction proof as [|s r IH]; intros i cur Hne; [done|].
  rewrite verifyLoop_cons. destruct r as [|s' r'].
  - cbn [verifyLoop]. destruct (isLeftNode idx i); apply digest_length.
  - by apply IH.
Qed.

(** X9. A leaf, proof and index are accepted against one root only; with
    at least one sibling that root is 32 bytes long, with none it is the
    leaf itself. *)
Theorem verifyProof_root_unique (leaf : Buffer) (proof : list Buffer)
    (leafIndex : Z) (root : Buffer) :
  verifyProof leaf proof leafIndex root = true ->
  (proof <> [] -> length root = 32%nat)
  /\ (proof = [] -> root = leaf)
  /\ (forall root' : Buffer,
         verifyProof leaf proof leafIndex root' = true -> root' = root).
Proof.
  rewrite verifyProof_loop. intros H. apply Buffer_equals_true in H.
  split; [|split].
  - intros Hne. rewrite <- H. by apply verifyLoop_length.
  - intros ->. by rewrite <- H.
  - intros root' H'. rewrite verifyProof_loop in H'.
    apply Buffer_equals_true in H'. congruence.
Qed.

Lemma verifyLoop_binds (proof proof' : list Buffer) (i : nat) (idx : Z)
    (cur cur' : Buffer) :
  Forall2 (fun s s' : Buffer => length s = length s') proof proof' ->
  length cur = length cur' ->
  Forall2 Spec.kept_apart (Spec.hashed proof i idx cur) (Spec.hashed proof' i idx cur') ->
  verifyLoop proof i idx cur = verifyLoop proof' i idx cur' ->
  cur = cur' /\ proof = proof'.
Proof.
  intros Hshape. revert i cur cur'.
  induction Hshape as [|s s' r r' Hs _ IH]; intros i cur cur' Hlen Hfree E; [done|].
  rewrite !hashed_cons in Hfree. rewrite !verifyLoop_cons in E.
  apply Forall2_cons_1 in Hfree as [Hk Hfree].
  destruct (isLeftNode idx i).
  - destruct (IH _ _ _ ltac:(by rewrite !digest_length) Hfree E) as [Ed ->].
    apply Hk in Ed. apply app_inj_1 in Ed as [-> ->]; done.
  - destruct (IH _ _ _ ltac:(by rewrite !digest_length) Hfree E) as [Ed ->].
    apply Hk in Ed. apply app_inj_1 in Ed as [-> ->]; done.
Qed.

(** X10. Two inputs of the same shape (leaves of one length, siblings of
    pairwise one length) accepted for the same index and root are the same
    leaf and the same proof, unless Keccak-256 collides on the two runs
    themselves. *)
Theorem verifyProof_binds (leaf leaf' : Buffer) (proof proof' : list Buffer)
    (leafIndex : Z) (root : Buffer) :
  verifyProof leaf proof leafIndex root = true ->
  verifyProof leaf' proof' leafIndex root = true ->
  Ref.same_shape leaf leaf' proof proof' ->
  Spec.collision_free leafIndex leaf proof leaf' proof' ->
  leaf = leaf' /\ proof = proof'.
Proof.
  rewrite !verifyProof_loop. intros H H' [Hl Hs] Hfree.
  apply Buffer_equals_true in H. apply Buffer_equals_true in H'.
  eapply verifyLoop_binds; [exact Hs|exact Hl|exact Hfree|congruence].
Qed.

(** X11. verifyProof never checks lengths, so the boundary between the
    leaf and the first sibling can be moved: for an even index, bytes taken
    off the end of the leaf and put in front of the first sibling leave the
    verdict unchanged, and for an odd index the same holds the other way
    round. *)
Theorem verifyProof_boundary_moves (a b c : Buffer) (rest : list Buffer)
    (leafIndex : Z) (root : Buffer) :
  (Z.testbit leafIndex 0 = false ->
   verifyProof (a ++ b) (c :: rest) leafIndex root
   = verifyProof a ((b ++ c) :: rest) leafIndex root)
  /\ (Z.testbit leafIndex 0 = true ->
      verifyProof (b ++ c) (a :: rest) leafIndex root
      = verifyProof c ((a ++ b) :: rest) leafIndex root).
Proof.
  rewrite !verifyProof_loop, !verifyLoop_cons, isLeftNode_low by lia.
  change (Z.of_nat 0) with 0%Z.
  split; intros ->; cbn [negb]; by rewrite <- app_assoc.
Qed.

Lemma verifyLoop_app (p q : list Buffer) (i : nat) (idx : Z) (cur : Buffer) :
  verifyLoop (p ++ q) i idx cur
  = verifyLoop q (i + length p) idx (verifyLoop p i idx cur).
Proof.
  revert i cur. induction p as [|s r IH]; intros i cur.
  - simpl. by rewrite Nat.add_0_r.
  - cbn [app]. rewrite !verifyLoop_cons, IH. cbn [length].
    by replace (S i + length r)%nat with (i + S (length r))%nat by lia.
Qed.

Lemma path_length (h : nat) (t : Ref.tree) (idx : Z) :
  Ref.perfect h t -> length (Ref.path h t idx) = h.
Proof.
  revert t. induction h as [|h IH]; intros [b|l r] Hp; try done.
  destruct Hp as [Hl Hr]. cbn [Ref.path].
  destruct (Z.testbit idx (Z.of_nat h)); rewrite length_app, IH by done;
    simpl; lia.
Qed.

Lemma verifyLoop_path (h : nat) (t : Ref.tree) (idx : Z) :
  Ref.perfect h t -> (h <= 32)%nat ->
  verifyLoop (Ref.path h t idx) 0 idx (Ref.leafAt h t idx) = Ref.root t.
Proof.
  revert t. induction h as [|h IH]; intros [b|l r] Hp Hh; try done.
  destruct Hp as [Hl Hr]. cbn [Ref.path Ref.leafAt Ref.root].
  destruct (Z.testbit idx (Z.of_nat h)) eqn:Hb.
  - rewrite verifyLoop_app, IH, path_length by (done || lia).
    change (0 + h)%nat with h.
    rewrite verifyLoop_cons, isLeftNode_low, Hb by lia. reflexivity.
  - rewrite verifyLoop_app, IH, path_length by (done || lia).
    change (0 + h)%nat with h.
    rewrite verifyLoop_cons, isLeftNode_low, Hb by lia. reflexivity.
Qed.

Lemma flatten_length (h : nat) (t : Ref.tree) :
  Ref.perfect h t -> length (Ref.flatten t) = (2 ^ h)%nat.
Proof.
  revert t. induction h as [|h IH]; intros [b|l r] Hp; try done.
  destruct Hp as [Hl Hr]. cbn [Ref.flatten]. rewrite length_app, !IH by done.
  simpl. lia.
Qed.

Lemma leafAt_low_bits (h : nat) (t : Ref.tree) (idx idx' : Z) :
  (forall j : nat, (j < h)%nat -> Z.testbit idx (Z.of_nat j) = Z.testbit idx' (Z.of_nat j)) ->
  Ref.leafAt h t idx = Ref.leafAt h t idx'
  /\ Ref.path h t idx = Ref.path h t idx'.
Proof.
  revert t. induction h as [|h IH]; intros [b|l r] Hb; try done.
  cbn [Ref.leafAt Ref.path]. rewrite <- (Hb h) by lia.
  destruct (IH l ltac:(intros; apply Hb; lia)) as [-> ->].
  destruct (IH r ltac:(intros; apply Hb; lia)) as [-> ->]. done.
Qed.

Lemma testbit_top (h : nat) (idx : Z) :
  (0 <= idx < 2 ^ Z.of_nat (S h))%Z ->
  Z.testbit idx (Z.of_nat h) = (2 ^ Z.of_nat h <=? idx)%Z.
Proof.
  intros Hi. rewrite Nat2Z.inj_succ, Z.pow_succ_r in Hi by lia.
  rewrite Z.testbit_odd, Z.shiftr_div_pow2 by lia.
  assert (Hp : (0 < 2 ^ Z.of_nat h)%Z) by (apply Z.pow_pos_nonneg; lia).
  destruct (Z.leb_spec (2 ^ Z.of_nat h) idx).
  - assert (idx / 2 ^ Z.of_nat h = 1)%Z as ->; [|done].
    symmetry. apply (Z.div_unique idx _ 1 (idx - 2 ^ Z.of_nat h)); lia.
  - by rewrite Z.div_small by lia.
Qed.

Lemma flatten_leafAt (h : nat) (t : Ref.tree) (idx : Z) :
  Ref.perfect h t -> (0 <= idx < 2 ^ Z.of_nat h)%Z ->
  Ref.flatten t !! Z.to_nat idx = Some (Ref.leafAt h t idx).
Proof.
  revert t idx. induction h as [|h IH]; intros [b|l r] idx Hp Hi; try done.
  - simpl in Hi. by replace idx with 0%Z by lia.
  - destruct Hp as [Hl Hr]. cbn [Ref.flatten Ref.leafAt].
    rewrite testbit_top by done.
    assert (Hp : (0 < 2 ^ Z.of_nat h)%Z) by (apply Z.pow_pos_nonneg; lia).
    assert (Hlen : length (Ref.flatten l) = Z.to_nat (2 ^ Z.of_nat h)).
    { rewrite (flatten_length h) by done.
      rewrite <- (Nat2Z.id (2 ^ h)). f_equal.
      rewrite Nat2Z.inj_pow. reflexivity. }
    rewrite Nat2Z.inj_succ, Z.pow_succ_r in Hi by lia.
    destruct (Z.leb_spec (2 ^ Z.of_nat h) idx).
    + rewrite lookup_app_r by lia. rewrite Hlen, <- Z2Nat.inj_sub by lia.
      rewrite IH by (done || lia).
      f_equal. apply leafAt_low_bits. intros j Hj.
      rewrite <- (Z.mod_pow2_bits_low (idx - 2 ^ Z.of_nat h) (Z.of_nat h)) by lia.
      rewrite <- (Z.mod_pow2_bits_low idx (Z.of_nat h) (Z.of_nat j)) by lia.
      f_equal.
      replace (idx - 2 ^ Z.of_nat h)%Z with (idx + (-1) * 2 ^ Z.of_nat h)%Z by lia.
      by rewrite Z.mod_add by lia.
    + rewrite lookup_app_l by lia. apply IH; [done|lia].
Qed.

(** X12. verifyProof is complete for binary Keccak trees of height at most
    32: the leaf at any position of a perfect tree, with the sibling hashes
    on its way to the root, lowest first, is accepted against the tree's
    root. *)
Theorem verifyProof_accepts_tree_path (h : nat) (t : Ref.tree) (leafIndex : Z) :
  Ref.perfect h t -> (h <= 32)%nat -> (0 <= leafIndex < 2 ^ Z.of_nat h)%Z ->
  exists leaf : Buffer,
    Ref.flatten t !! Z.to_nat leafIndex = Some leaf
    /\ length (Ref.path h t leafIndex) = h
    /\ verifyProof leaf (Ref.path h t leafIndex) leafIndex (Ref.root t) = true.
Proof.
  intros Hp Hh Hi. exists (Ref.leafAt h t leafIndex).
  split; [by apply flatten_leafAt|]. split; [by apply path_length|].
  rewrite verifyProof_loop, verifyLoop_path by done.
  by apply Buffer_equals_true.
Qed.

Lemma getMerkleTreeSize_cases (m : Z) :
  ((m <= 1024)%Z /\ getMerkleTreeSize m = (10, 64)%Z)
  \/ ((1024 < m <= 4096)%Z /\ getMerkleTreeSize m = (12, 64)%Z)
  \/ ((4096 < m <= 16384)%Z /\ getMerkleTreeSize m = (14, 64)%Z)
  \/ ((16384 < m)%Z /\ getMerkleTreeSize m = (20, 256)%Z).
Proof.
  unfold getMerkleTreeSize.
  destruct (Z.leb_spec m 1024); [by left|].
  destruct (Z.leb_spec m 4096); [right; left; split; [lia|done]|].
  destruct (Z.leb_spec m 16384); [right; right; left; split; [lia|done]|].
  right; right; right. split; [lia|done].
Qed.

(** X13. Up to 2^20 voters the depth getMerkleTreeSize returns gives a tree
    with room for all of them; beyond 2^20 it still returns depth 20, which
    has not; and depth and buffer size never decrease as maxVoters grows. *)
Theorem getMerkleTreeSize_capacity (maxVoters : Z) :
  ((maxVoters <= 2^20)%Z -> (maxVoters <= 2 ^ fst (getMerkleTreeSize maxVoters))%Z)
  /\ ((2^20 < maxVoters)%Z ->
      getMerkleTreeSize maxVoters = (20, 256)%Z
      /\ (2 ^ fst (getMerkleTreeSize maxVoters) < maxVoters)%Z)
  /\ (forall m : Z, (maxVoters <= m)%Z ->
        (fst (getMerkleTreeSize maxVoters) <= fst (getMerkleTreeSize m))%Z
        /\ (snd (getMerkleTreeSize maxVoters) <= snd (getMerkleTreeSize m))%Z).
Proof.
  change (2^20)%Z with 1048576%Z.
  split; [|split].
  - intros Hm.
    destruct (getMerkleTreeSize_cases maxVoters) as [[? ->]|[[? ->]|[[? ->]|[? ->]]]];
      cbn [fst].
    + change (2^10)%Z with 1024%Z. lia.
    + change (2^12)%Z with 4096%Z. lia.
    + change (2^14)%Z with 16384%Z. lia.
    + change (2^20)%Z with 1048576%Z. lia.
  - intros Hm.
    destruct (getMerkleTreeSize_cases maxVoters) as [[? ->]|[[? ->]|[[? ->]|[? ->]]]];
      try lia.
    split; [done|]. cbn [fst]. change (2^20)%Z with 1048576%Z. lia.
  - intros m Hm.
    destruct (getMerkleTreeSize_cases maxVoters) as [[? ->]|[[? ->]|[[? ->]|[? ->]]]];
      destruct (getMerkleTreeSize_cases m) as [[? ->]|[[? ->]|[[? ->]|[? ->]]]];
      cbn [fst snd]; lia.
Qed.

(** X14. Every depth getMerkleTreeSize can return is within the 32 levels
    over which verifyProof reads the right bit of the index: for a proof as
    long as that depth, verifyProof is the specification's verifyMembership. *)
Theorem verifyProof_at_tree_depth (maxVoters : Z) (leaf : Buffer)
    (proof : list Buffer) (leafIndex : Z) (root : Buffer) :
  Z.of_nat (length proof) = fst (getMerkleTreeSize maxVoters) ->
  verifyProof leaf proof leafIndex root
  = Spec.verifyMembership leaf proof leafIndex root.
Proof.
  intros Hlen.
  assert (length proof <= 32)%nat.
  { revert Hlen.
    destruct (getMerkleTreeSize_cases maxVoters) as [[? ->]|[[? ->]|[[? ->]|[? ->]]]];
      cbn [fst]; lia. }
  rewrite verifyProof_loop, verifyLoop_reconstruct by (simpl; lia).
  reflexivity.
Qed.

Lemma hex_of_bytes_app (a b : list byte) :
  hex_of_bytes (a ++ b) = (hex_of_bytes a ++ hex_of_bytes b)%string.
Proof. induction a as [|x a IH]; simpl; [done|]. by rewrite IH. Qed.

Lemma hex_of_bytes_length (a : list byte) :
  String.length (hex_of_bytes a) = (2 * length a)%nat.
Proof. induction a as [|x a IH]; simpl; [done|]. rewrite IH. lia. Qed.

Lemma substring_all (s t : string) :
  String.substring 0 (String.length s) (s ++ t) = s.
Proof. induction s as [|c s IH]; simpl; [by destruct t|]. by rewrite IH. Qed.

Lemma substring_short (n : nat) (s : string) :
  (String.length s <= n)%nat -> String.substring 0 n s = s.
Proof.
  revert n. induction s as [|c s IH]; intros n Hn; [by destruct n|].
  destruct n as [|n]; simpl in *; [lia|]. rewrite IH by lia. done.
Qed.

Lemma string_app_length (s t : string) :
  String.length (s ++ t) = (String.length s + String.length t)%nat.
Proof. induction s as [|c s IH]; simpl; [done|]. by rewrite IH. Qed.

Lemma Buffer_from_hex_after_hex (bs : list byte) (t : string) :
  Buffer_from_hex (hex_of_bytes bs ++ t) = bs ++ Buffer_from_hex t.
Proof.
  induction bs as [|b r IH]; [reflexivity|].
  change (Buffer_from_hex
            (String (hex_digit (Byte.to_N b / 16))
               (String (hex_digit (Byte.to_N b mod 16)) (hex_of_bytes r ++ t)))
          = b :: (r ++ Buffer_from_hex t)).
  by rewrite hex_pair_decodes, IH.
Qed.

(** X15. formatLeafHash shows the first 8 bytes of the hash in hex followed
    by three dots (the whole hash if it is shorter): the result has
    2 * min(8, length) + 3 characters, decodes back to those bytes, and is
    the same for any two hashes that share them. *)
Theorem formatLeafHash_prefix (leafHash : Buffer) :
  formatLeafHash leafHash = (hex_of_bytes (take 8 leafHash) ++ "...")%string
  /\ String.length (formatLeafHash leafHash)
     = (2 * Nat.min 8 (length leafHash) + 3)%nat
  /\ Buffer_from_hex (formatLeafHash leafHash) = take 8 leafHash
  /\ (forall other : Buffer,
         take 8 other = take 8 leafHash ->
         formatLeafHash other = formatLeafHash leafHash).
Proof.
  assert (E : forall b : Buffer,
             formatLeafHash b = (hex_of_bytes (take 8 b) ++ "...")%string).
  { intros b. unfold formatLeafHash. f_equal.
    rewrite <- (take_drop 8 b) at 1. rewrite hex_of_bytes_app.
    destruct (Nat.le_gt_cases 8 (length b)) as [Hlen|Hlen].
    - replace 16%nat with (String.length (hex_of_bytes (take 8 b))).
      + apply substring_all.
      + rewrite hex_of_bytes_length, length_take. lia.
    - rewrite drop_ge by lia. cbn [hex_of_bytes].
      assert (Hnil : forall s : string, (s ++ "")%string = s).
      { induction s as [|c s IH]; [done|].
        change (String c (s ++ "")%string = String c s). by rewrite IH. }
      rewrite Hnil. apply substring_short.
      rewrite hex_of_bytes_length, length_take. lia. }
  repeat apply conj.
  - apply E.
  - rewrite E, string_app_length, hex_of_bytes_length, length_take. simpl. lia.
  - rewrite E, Buffer_from_hex_after_hex. apply app_nil_r.
  - intros other Ho. by rewrite !E, Ho.
Qed.

(** X16. The SimpleMerkleTree of the test file and the SDK's class agree:
    on the same leaves they return the same root and the same proof, and
    addLeaf keeps them in step. *)
Theorem test_tree_agrees (t : SimpleMerkleTree) (leaf : Buffer) (leafIndex : Z) :
  TestTree.getRoot (Ref.testTreeOf t) = getRoot t
  /\ TestTree.getProof (Ref.testTreeOf t) leafIndex = getProof t leafIndex
  /\ TestTree.addLeaf (Ref.testTreeOf t) leaf = Ref.testTreeOf (addLeaf t leaf)
  /\ TestTree.newTree = Ref.testTreeOf newTree.
Proof. by repeat apply conj. Qed.

(** X17. A tree whose leaves are all 32 bytes long, the empty tree included,
    has a 32-byte root. *)
Theorem getRoot_is_32_bytes (t : SimpleMerkleTree) :
  Forall (fun leaf : Buffer => length leaf = 32%nat) (leaves t) ->
  length (getRoot t) = 32%nat.
Proof.
  intros Hall. destruct (leaves t) as [|a r] eqn:E.
  - unfold getRoot. by rewrite E.
  - assert (Hne : leaves t <> []) by (by rewrite E).
    apply getRoot_last in Hne.
    rewrite <- E in Hall. rewrite Forall_forall in Hall.
    apply Hall. by apply last_Some_elem_of.
Qed.

Lemma createCompressedVoterLeaf_binds_witness :
  (Ref.leafMessage (mkPublicKey 1) (mkPublicKey 100) (mkPublicKey 200) 1700000000
   = Ref.leafMessage (mkPublicKey 2) (mkPublicKey 100) (mkPublicKey 200) 1700000000 ->
   (mkPublicKey 1, mkPublicKey 100, mkPublicKey 200, 1700000000%Z)
   = (mkPublicKey 2, mkPublicKey 100, mkPublicKey 200, 1700000000%Z))
  /\ (Spec.kept_apart
        (Ref.leafMessage (mkPublicKey 1) (mkPublicKey 100) (mkPublicKey 200) 1700000000)
        (Ref.leafMessage (mkPublicKey 2) (mkPublicKey 100) (mkPublicKey 200) 1700000000) ->
      createCompressedVoterLeaf (mkPublicKey 1) (mkPublicKey 100) (mkPublicKey 200)
        1700000000
      = createCompressedVoterLeaf (mkPublicKey 2) (mkPublicKey 100) (mkPublicKey 200)
          1700000000 ->
      (mkPublicKey 1, mkPublicKey 100, mkPublicKey 200, 1700000000%Z)
      = (mkPublicKey 2, mkPublicKey 100, mkPublicKey 200, 1700000000%Z)).
Proof.
  apply (createCompressedVoterLeaf_binds (mkPublicKey 1) (mkPublicKey 100)
           (mkPublicKey 200) (mkPublicKey 2) (mkPublicKey 100) (mkPublicKey 200)
           1700000000 1700000000);
    unfold Ref.validKey; cbn [pk_bn]; lia.
Defined.

Lemma createNullifier_binds_witness :
  (Ref.nullifierMessage (mkPublicKey 1) (mkPublicKey 100) 0
   = Ref.nullifierMessage (mkPublicKey 1) (mkPublicKey 100) 1 ->
   (mkPublicKey 1, mkPublicKey 100, 0%Z) = (mkPublicKey 1, mkPublicKey 100, 1%Z))
  /\ (Spec.kept_apart (Ref.nullifierMessage (mkPublicKey 1) (mkPublicKey 100) 0)
        (Ref.nullifierMessage (mkPublicKey 1) (mkPublicKey 100) 1) ->
      createNullifier (mkPublicKey 1) (mkPublicKey 100) (Some 0%Z)
      = createNullifier (mkPublicKey 1) (mkPublicKey 100) (Some 1%Z) ->
      (mkPublicKey 1, mkPublicKey 100, 0%Z) = (mkPublicKey 1, mkPublicKey 100, 1%Z)).
Proof.
  apply (createNullifier_binds (mkPublicKey 1) (mkPublicKey 100)
           (mkPublicKey 1) (mkPublicKey 100) 0 1);
    unfold Ref.validKey; cbn [pk_bn]; lia.
Defined.

Lemma nullifier_is_no_leaf_witness :
  length (Ref.nullifierMessage (mkPublicKey 1) (mkPublicKey 100) 0) = 72%nat
  /\ length (Ref.leafMessage (mkPublicKey 1) (mkPublicKey 100) (mkPublicKey 200)
               1700000000) = 104%nat
  /\ (Spec.kept_apart (Ref.nullifierMessage (mkPublicKey 1) (mkPublicKey 100) 0)
        (Ref.leafMessage (mkPublicKey 1) (mkPublicKey 100) (mkPublicKey 200) 1700000000) ->
      createNullifier (mkPublicKey 1) (mkPublicKey 100) (Some 0%Z)
      <> createCompressedVoterLeaf (mkPublicKey 1) (mkPublicKey 100)
           (mkPublicKey 200) 1700000000).
Proof.
  apply (nullifier_is_no_leaf (mkPublicKey 1) (mkPublicKey 100) (mkPublicKey 1)
           (mkPublicKey 100) (mkPublicKey 200) 0 1700000000); lia.
Defined.

Lemma verifyProof_parent_witness :
  verifyProof Sample.plainLeaf [Sample.plainSibling; Sample.plainSibling] 2
    Sample.upperRoot
  = verifyProof
      (if Z.testbit 2 0
       then Keccak.digest (Sample.plainSibling ++ Sample.plainLeaf)
       else Keccak.digest (Sample.plainLeaf ++ Sample.plainSibling))
      [Sample.plainSibling] (2 / 2) Sample.upperRoot.
Proof.
  apply (verifyProof_parent Sample.plainLeaf Sample.plainSibling
           [Sample.plainSibling] 2 Sample.upperRoot).
  simpl. lia.
Defined.

Lemma verifyProof_root_unique_witness :
  ([Sample.plainSibling] <> [] -> length Sample.plainRoot = 32%nat)
  /\ ([Sample.plainSibling] = [] -> Sample.plainRoot = Sample.plainLeaf)
  /\ (forall other : Buffer,
         verifyProof Sample.plainLeaf [Sample.plainSibling] 0 other = true ->
         other = Sample.plainRoot).
Proof.
  apply (verifyProof_root_unique Sample.plainLeaf [Sample.plainSibling] 0
           Sample.plainRoot).
  vm_compute. reflexivity.
Defined.

Lemma verifyProof_binds_witness :
  Sample.plainLeaf = Sample.plainLeaf
  /\ [Sample.plainSibling] = [Sample.plainSibling].
Proof.
  apply (verifyProof_binds Sample.plainLeaf Sample.plainLeaf
           [Sample.plainSibling] [Sample.plainSibling] 0 Sample.plainRoot).
  - vm_compute. reflexivity.
  - vm_compute. reflexivity.
  - split; [reflexivity|]. repeat constructor.
  - apply (bool_decide_unpack _). vm_compute. exact I.
Defined.

Lemma verifyProof_boundary_moves_witness :
  verifyProof ([x01] ++ [x02]) ([x03] :: []) 0 (Keccak.digest [x01; x02; x03])
  = verifyProof [x01] (([x02] ++ [x03]) :: []) 0 (Keccak.digest [x01; x02; x03])
  /\ verifyProof ([x02] ++ [x03]) ([x01] :: []) 1 (Keccak.digest [x01; x02; x03])
     = verifyProof [x03] (([x01] ++ [x02]) :: []) 1 (Keccak.digest [x01; x02; x03]).
Proof.
  split.
  - apply (proj1 (verifyProof_boundary_moves [x01] [x02] [x03] [] 0
                    (Keccak.digest [x01; x02; x03]))). reflexivity.
  - apply (proj2 (verifyProof_boundary_moves [x01] [x02] [x03] [] 1
                    (Keccak.digest [x01; x02; x03]))). reflexivity.
Defined.

Lemma verifyProof_accepts_tree_path_witness :
  exists leaf : Buffer,
    Ref.flatten Ref.fourLeaves !! Z.to_nat 2 = Some leaf
    /\ length (Ref.path 2 Ref.fourLeaves 2) = 2%nat
    /\ verifyProof leaf (Ref.path 2 Ref.fourLeaves 2) 2 (Ref.root Ref.fourLeaves)
       = true.
Proof.
  apply (verifyProof_accepts_tree_path 2 Ref.fourLeaves 2).
  - unfold Ref.fourLeaves. cbn [Ref.perfect]. tauto.
  - lia.
  - lia.
Defined.

Lemma getMerkleTreeSize_capacity_witness :
  (10000 <= 2 ^ fst (getMerkleTreeSize 10000))%Z
  /\ (getMerkleTreeSize 2000000 = (20, 256)%Z
      /\ (2 ^ fst (getMerkleTreeSize 2000000) < 2000000)%Z).
Proof.
  split.
  - apply (proj1 (getMerkleTreeSize_capacity 10000)). lia.
  - apply (proj1 (proj2 (getMerkleTreeSize_capacity 2000000))). lia.
Defined.

Lemma verifyProof_at_tree_depth_witness :
  verifyProof Sample.plainLeaf (repeat Sample.plainSibling 14) 5 Sample.plainRoot
  = Spec.verifyMembership Sample.plainLeaf (repeat Sample.plainSibling 14) 5
      Sample.plainRoot.
Proof.
  apply (verifyProof_at_tree_depth 10000 Sample.plainLeaf
           (repeat Sample.plainSibling 14) 5 Sample.plainRoot).
  reflexivity.
Defined.

Lemma getRoot_is_32_bytes_witness :
  length (getRoot (mkTree [Sample.plainLeaf; Sample.changedLeaf])) = 32%nat.
Proof.
  apply (getRoot_is_32_bytes (mkTree [Sample.plainLeaf; Sample.changedLeaf])).
  cbn [leaves]. repeat constructor.
Defined.
